(** * Numeric tools of the AutoGen / Unity Catalog example notebook

    The notebook [ai/integrations/autogen/autogen_example.ipynb] registers
    two Python functions as catalog tools:

    - [calculate_vpd], the vapour pressure deficit from the Magnus formula;
    - [fahrenheit_to_celsius], a unit conversion.

    Both are pure functions on Python [float]s, that is on IEEE-754
    binary64.  They are embedded here twice.

    - [Module Binary64]: operation for operation on the kernel's
      primitive floats, which are binary64 with rounding to nearest even.
      The literals are the floats Python reads.  The true division
      [x / y] raises [ZeroDivisionError] when [y] compares equal to zero.
      [math.exp] is the wrapper of CPython around the C library's [exp]:
      it raises [OverflowError] when the library returns an infinity on a
      finite argument.  The library function itself is not part of the
      repository; it is the parameter [libm_exp] of the embedding, and
      [Libm.exp_conforms] says what is assumed of it where a statement
      needs it.  [reference_exp] is a function that meets the
      assumption.
    - [Module Exact]: a Python [float] is read as a real number, with
      neither rounding nor range, and [math.exp] is the real exponential.
      This model gives the figures at concrete inputs;
      [calculate_vpd_refines_exact] bounds its distance to the binary64
      embedding for inputs in [-100, 100].

    The real number a float stands for is [B2R]; the error of each
    binary64 operation against the operation over the reals is derived
    from the specification of the primitive floats ([SpecFloat]).

    [Module Notebook] holds the names under which the notebook asks the
    toolkit for the two functions.  The catalog client, the toolkit and
    the agent are external libraries and are not modelled. *)

From Stdlib Require Import Reals Lra Lia ZArith Floats Bool String Ascii.
From Stdlib Require Import ClassicalEpsilon.
Import FloatOps FloatAxioms SpecFloat.

(** ** Outcomes of a Python call *)

Module Py.

(** The exceptions the embeddings follow: [ZeroDivisionError] of the true
    division, [OverflowError] and [ValueError] of [math.exp]. *)
Inductive exn : Set :=
| ZeroDivisionError
| OverflowError
| ValueError.

(** A call either returns a value or raises. *)
Inductive result (A : Type) : Type :=
| Ret (v : A)
| Raise (e : exn).

Arguments Ret {A} v.
Arguments Raise {A} e.

Definition bind {A B : Type} (m : result A) (k : A -> result B) : result B :=
  match m with
  | Ret v => k v
  | Raise e => Raise e
  end.

End Py.

Import Py.

Declare Scope py_scope.
Delimit Scope py_scope with py.
Notation "x <- m ;; k" := (bind m (fun x => k))
  (at level 61, m at next level, right associativity) : py_scope.

(** ** The functions over the reals

    A float is read as the real number it stands for.  Rounding and the
    range of binary64 are not part of this model: it stands for the
    code at concrete inputs well inside the range, and in general only
    as far as [calculate_vpd_refines_exact] relates it to
    [Module Binary64]. *)

Module Exact.

Local Open Scope R_scope.
Local Open Scope py_scope.

(** [x / y] on Python floats: [float_div] of CPython raises
    [ZeroDivisionError] when the divisor is zero. *)
Definition float_truediv (x y : R) : result R :=
  if Req_dec_T y 0 then Raise ZeroDivisionError else Ret (x / y).

(** [math.exp]. *)
Definition math_exp (x : R) : R := exp x.

(** [calculate_vpd(temperature_c, dew_point_c)], statement by statement:
    the two divisions are evaluated in the order of the source, [e_s]
    first. *)
Definition calculate_vpd (temperature_c dew_point_c : R) : result R :=
  let a := 17.625 in
  let b := 243.04 in
  q_s <- float_truediv (a * temperature_c) (b + temperature_c) ;;
  let e_s := 6.1094 * math_exp q_s in
  q_a <- float_truediv (a * dew_point_c) (b + dew_point_c) ;;
  let e_a := 6.1094 * math_exp q_a in
  let vpd := e_s - e_a in
  Ret vpd.

(** [fahrenheit_to_celsius(fahrenheit)]:
    [return (fahrenheit - 32) * 5.0 / 9.0]. *)
Definition fahrenheit_to_celsius (fahrenheit : R) : result R :=
  float_truediv ((fahrenheit - 32) * 5.0) 9.0.

(** *** The contract, in the words of the specification *)

(** Magnus formula: numerator coefficient 17.625, denominator offset
    243.04, scale coefficient 6.1094 hPa. *)
Definition magnus (celsius : R) : R :=
  6.1094 * exp (17.625 * celsius / (243.04 + celsius)).

(** Saturation pressure at the temperature minus actual pressure at the
    dew point. *)
Definition vpd_spec (temperature_c dew_point_c : R) : R :=
  magnus temperature_c - magnus dew_point_c.

(** [v] agrees with [c] up to [tol]. *)
Definition approx (tol v c : R) : Prop := Rabs (v - c) <= tol.

(** Both calls return, and the first value is strictly below the
    second. *)
Definition lt_result (m1 m2 : result R) : Prop :=
  exists v1 v2, m1 = Ret v1 /\ m2 = Ret v2 /\ v1 < v2.

End Exact.

(** ** Binary64 values as real numbers *)

(** [2 ^ e]. *)
Definition bpow (e : Z) : R := powerRZ 2 e.

(** The real number a float stands for; zeros, infinities and NaN are
    sent to 0, and statements that use [B2R] say which floats are
    finite. *)
Definition SF2R (x : spec_float) : R :=
  match x with
  | S754_finite s m e => (if s then - IZR (Zpos m) else IZR (Zpos m)) * bpow e
  | _ => 0%R
  end.

Definition B2R (x : float) : R := SF2R (Prim2SF x).

(** The exponent of the last place of a binary64 value of magnitude
    [2 ^ e]. *)
Definition fexp64 (e : Z) : Z := Z.max (e - 53) (-1074).

Definition sgn (s : bool) : R := if s then (-1)%R else 1%R.

(** Zero or finite. *)
Definition SFfinite (x : spec_float) : bool :=
  match x with
  | S754_zero _ | S754_finite _ _ _ => true
  | _ => false
  end.

(** The rounding error allowed on a result that stands for [v]. *)
Definition round_err (v : R) : R := (bpow (-50) * Rabs v + bpow (-1073))%R.

(** ** The functions on binary64 *)

Module Binary64.

Local Open Scope float_scope.
Local Open Scope py_scope.

(** [x / y] on Python floats; [0.0] and [-0.0] both compare equal to
    zero. *)
Definition float_truediv (x y : float) : result float :=
  if PrimFloat.eqb y 0 then Raise ZeroDivisionError else Ret (x / y).

Definition fahrenheit_to_celsius (fahrenheit : float) : result float :=
  float_truediv ((fahrenheit - 32) * 5.0) 9.0.

(** [math.exp] of CPython ([math_1] in [Modules/mathmodule.c]) around the
    C library's [exp], which is the parameter [libm_exp]: a NaN result on
    an argument that is not NaN is a [ValueError], an infinite result on
    a finite argument is an [OverflowError], and every other result is
    returned (an underflow to zero is not an error). *)
Definition math_exp (libm_exp : float -> float) (x : float) : result float :=
  let r := libm_exp x in
  if is_nan r && negb (is_nan x) then Raise ValueError
  else if is_infinity r && is_finite x then Raise OverflowError
  else Ret r.

(** [calculate_vpd(temperature_c, dew_point_c)], statement by statement.
    The literals are the binary64 values Python reads: [17.625] is exact,
    [243.04] is [0x1.e6147ae147ae1p+7] and [6.1094] is
    [0x1.870068db8bac7p+2]. *)
Definition calculate_vpd (libm_exp : float -> float)
    (temperature_c dew_point_c : float) : result float :=
  let a := 17.625 in
  let b := 0x1.e6147ae147ae1p+7 in
  q_s <- float_truediv (a * temperature_c) (b + temperature_c) ;;
  E_s <- math_exp libm_exp q_s ;;
  let e_s := 0x1.870068db8bac7p+2 * E_s in
  q_a <- float_truediv (a * dew_point_c) (b + dew_point_c) ;;
  E_a <- math_exp libm_exp q_a ;;
  let e_a := 0x1.870068db8bac7p+2 * E_a in
  let vpd := e_s - e_a in
  Ret vpd.

(** The Celsius-to-Fahrenheit expression of the specification,
    [c * 9 / 5 + 32], in binary64; the notebook does not define it. *)
Definition celsius_to_fahrenheit (c : float) : float := c * 9 / 5 + 32.

End Binary64.

(** One half of [calculate_vpd]: the Magnus pressure at one
    temperature, [6.1094 * math.exp((a * x) / (b + x))]. *)
Definition magnus_half (libm_exp : float -> float) (x : float) : result float :=
  (q <- Binary64.float_truediv (17.625 * x) (0x1.e6147ae147ae1p+7 + x) ;;
   E <- Binary64.math_exp libm_exp q ;;
   Ret (0x1.870068db8bac7p+2 * E))%float%py.

(** ** The C library's exponential *)

(** What is assumed of the C library's [exp] where a statement needs it:
    NaN is sent to NaN, [+infinity] to itself and [-infinity] to zero; the
    result is [+infinity] from 710 on (the largest argument with a finite
    exponential is about 709.78) and zero up to -746 (below about
    -745.13 the exponential rounds to zero); and between -708 and 709
    the result is finite and within the relative distance [2 ^ -51] of
    the real exponential, that is within two units in the last place.
    Nothing is assumed in between. *)
Module Libm.

Local Open Scope R_scope.

Record exp_conforms (libm_exp : float -> float) : Prop := {
  exp_of_nan : forall x, is_nan x = true -> is_nan (libm_exp x) = true;
  exp_of_infinity : libm_exp infinity = infinity;
  exp_of_neg_infinity : libm_exp neg_infinity = 0%float;
  exp_overflow : forall x,
    is_finite x = true -> 710 <= B2R x -> libm_exp x = infinity;
  exp_underflow : forall x,
    is_finite x = true -> B2R x <= -746 -> libm_exp x = 0%float;
  exp_accurate : forall x,
    is_finite x = true -> -708 <= B2R x <= 709 ->
    is_finite (libm_exp x) = true /\
    Rabs (B2R (libm_exp x) - exp (B2R x)) <= bpow (-51) * exp (B2R x)
}.

End Libm.

(** A function that meets [Libm.exp_conforms]: the prescribed values
    where there are any, and otherwise some float within the allowed
    distance of the real exponential. *)
Definition reference_exp (x : float) : float :=
  if is_nan x then nan
  else if is_infinity x then (if get_sign x then 0%float else infinity)
  else if Rle_dec 710 (B2R x) then infinity
  else if Rle_dec (B2R x) (-746) then 0%float
  else epsilon (inhabits 0%float)
         (fun r => is_finite r = true /\
                   (Rabs (B2R r - exp (B2R x)) <= bpow (-51) * exp (B2R x))%R).

(** ** The Magnus formula with the binary64 coefficients, over the reals *)

(** [A], [B] and [C] are the real values of the floats Python reads for
    [17.625], [243.04] and [6.1094]. *)
Module MagnusReal.
Local Open Scope R_scope.
(** The real values of the three binary64 constants of [calculate_vpd]. *)
Definition A : R := 17.625.
Definition B : R := IZR 8551209792469729 / IZR (2 ^ 45).
Definition C : R := IZR 6878572890864327 / IZR (2 ^ 50).
(** The Magnus exponent and the Magnus pressure with these constants. *)
Definition exponent (T : R) : R := A * T / (B + T).
Definition pressure (T : R) : R := C * exp (exponent T).
End MagnusReal.

(** ** Certified enclosures of the exponential

    Rational bounds on [exp (p / q)] computed in fixed point on [Z]:
    [1 + z <= exp z <= 1 / (1 - z)] at [z = p / (q * 2 ^ k)], then [k]
    squarings rounded outwards. *)

Module ExpBound.

Local Open Scope Z_scope.

Definition scale : Z := 2 ^ 80.

(** The real number a fixed-point integer stands for. *)
Definition fixed (n : Z) : R := (IZR n / IZR scale)%R.

Definition sq_down (l : Z) : Z := (l * l) / scale.

Definition sq_up (u : Z) : Z := (u * u + scale - 1) / scale.

Definition exp_lower (p q : Z) (k : nat) : Z :=
  Nat.iter k sq_down (scale + (scale * p) / (q * 2 ^ Z.of_nat k)).

Definition exp_upper (p q : Z) (k : nat) : Z :=
  let m := q * 2 ^ Z.of_nat k in
  Nat.iter k sq_up ((scale * m + (m - p) - 1) / (m - p)).

End ExpBound.

(** ** The names of the tools

    The notebook builds the names it hands to the toolkit with two
    f-strings over its [CATALOG] and [SCHEMA] variables, which the reader
    is told to adjust:
    [vpd_tool = f"{CATALOG}.{SCHEMA}.calculate_vpd"] and
    [f_to_c_tool = f"{CATALOG}.{SCHEMA}.fahrenheit_to_celsius"]. *)

Module Notebook.

Local Open Scope string_scope.

(** [f"{catalog}.{schema}.{function_name}"]. *)
Definition tool_name (catalog schema function_name : string) : string :=
  catalog ++ "." ++ schema ++ "." ++ function_name.

Definition vpd_tool (CATALOG SCHEMA : string) : string :=
  tool_name CATALOG SCHEMA "calculate_vpd".

Definition f_to_c_tool (CATALOG SCHEMA : string) : string :=
  tool_name CATALOG SCHEMA "fahrenheit_to_celsius".

(** Whether a dot occurs in a name. *)
Fixpoint has_dot (s : string) : bool :=
  match s with
  | EmptyString => false
  | String c rest => if Ascii.eqb c "." then true else has_dot rest
  end.

End Notebook.

(** ** Division *)

Section Division.

Local Open Scope R_scope.

Lemma float_truediv_nonzero (x y : R) :
  y <> 0 -> Exact.float_truediv x y = Ret (x / y).
Proof.
  intros Hy. unfold Exact.float_truediv.
  destruct (Req_dec_T y 0) as [E | _]; [contradiction | reflexivity].
Qed.

Lemma float_truediv_zero (x y : R) :
  y = 0 -> Exact.float_truediv x y = Raise ZeroDivisionError.
Proof.
  intros Hy. unfold Exact.float_truediv.
  destruct (Req_dec_T y 0) as [_ | N]; [reflexivity | contradiction].
Qed.

End Division.

(** ** What [calculate_vpd] evaluates to *)

Section Vpd_outcome.

Local Open Scope R_scope.

(** Both denominators nonzero: the function returns the Magnus
    difference. *)
Lemma calculate_vpd_returns (t d : R) :
  243.04 + t <> 0 -> 243.04 + d <> 0 ->
  Exact.calculate_vpd t d = Ret (Exact.vpd_spec t d).
Proof.
  intros Ht Hd. unfold Exact.calculate_vpd.
  rewrite (float_truediv_nonzero _ _ Ht). cbn [bind].
  rewrite (float_truediv_nonzero _ _ Hd). cbn [bind].
  reflexivity.
Qed.

(** The first division fails. *)
Lemma calculate_vpd_raises_temperature (t d : R) :
  243.04 + t = 0 -> Exact.calculate_vpd t d = Raise ZeroDivisionError.
Proof.
  intros Ht. unfold Exact.calculate_vpd.
  rewrite (float_truediv_zero _ _ Ht). reflexivity.
Qed.

(** The first division succeeds and the second fails. *)
Lemma calculate_vpd_raises_dew_point (t d : R) :
  243.04 + t <> 0 -> 243.04 + d = 0 ->
  Exact.calculate_vpd t d = Raise ZeroDivisionError.
Proof.
  intros Ht Hd. unfold Exact.calculate_vpd.
  rewrite (float_truediv_nonzero _ _ Ht). cbn [bind].
  rewrite (float_truediv_zero _ _ Hd). reflexivity.
Qed.

End Vpd_outcome.

(** ** The Magnus curve *)

Section Magnus.

Local Open Scope R_scope.

(** Below the pole the exponent is positive, so the curve there lies
    above its value at 0, where the exponent vanishes. *)
Lemma magnus_below_pole (x : R) :
  x < -243.04 -> Exact.magnus 0 < Exact.magnus x.
Proof.
  intros Hx. unfold Exact.magnus.
  apply Rmult_lt_compat_l; [lra|]. apply exp_increasing.
  replace (17.625 * 0 / (243.04 + 0)) with 0 by (field; lra).
  replace (17.625 * x / (243.04 + x))
    with (17.625 * (- x) / (- (243.04 + x))) by (field; lra).
  apply Rdiv_lt_0_compat; [apply Rmult_lt_0_compat|]; lra.
Qed.

End Magnus.

(** ** Soundness of the enclosures *)

Section ExpBound_sound.

Import ExpBound.
Local Open Scope R_scope.

Lemma scale_pos : (0 < scale)%Z.
Proof. reflexivity. Qed.

Lemma IZR_scale_pos : 0 < IZR scale.
Proof. apply IZR_lt. exact scale_pos. Qed.

(** Dividing by [scale] rounds a fixed-point product down... *)
Lemma fixed_floor (n : Z) :
  fixed (n / scale) <= IZR n / (IZR scale * IZR scale).
Proof.
  pose proof IZR_scale_pos as HS. unfold fixed.
  assert (H : (scale * (n / scale) <= n)%Z)
    by (apply Z.mul_div_le; exact scale_pos).
  apply IZR_le in H. rewrite mult_IZR in H.
  apply Rmult_le_reg_r with (IZR scale * IZR scale); [nra|].
  field_simplify; [|lra|lra]. nra.
Qed.

(** ... and adding [scale - 1] first rounds it up. *)
Lemma fixed_ceil (n : Z) :
  IZR n / (IZR scale * IZR scale) <= fixed ((n + scale - 1) / scale).
Proof.
  pose proof IZR_scale_pos as HS. unfold fixed.
  assert (H : (n <= scale * ((n + scale - 1) / scale))%Z).
  { pose proof (Z.mul_succ_div_gt (n + scale - 1) scale scale_pos). lia. }
  apply IZR_le in H. rewrite mult_IZR in H.
  apply Rmult_le_reg_r with (IZR scale * IZR scale); [nra|].
  field_simplify; [|lra|lra]. nra.
Qed.

Lemma exp_double (z : R) : exp (2 * z) = exp z * exp z.
Proof. replace (2 * z) with (z + z) by lra. apply exp_plus. Qed.

(** One squaring step keeps a lower bound a lower bound, at twice the
    argument. *)
Lemma sq_down_sound (z : R) (l : Z) :
  (0 <= l)%Z -> fixed l <= exp z ->
  (0 <= sq_down l)%Z /\ fixed (sq_down l) <= exp (2 * z).
Proof.
  intros Hl Hle. pose proof IZR_scale_pos as HS. split.
  - apply Z.div_pos; [nia | exact scale_pos].
  - unfold sq_down. eapply Rle_trans; [apply fixed_floor|].
    rewrite mult_IZR, exp_double.
    assert (H0 : 0 <= fixed l).
    { unfold fixed. apply Rmult_le_pos; [now apply IZR_le|].
      left. now apply Rinv_0_lt_compat. }
    replace (IZR l * IZR l / (IZR scale * IZR scale)) with (fixed l * fixed l)
      by (unfold fixed; field; lra).
    apply Rmult_le_compat; assumption.
Qed.

Lemma sq_up_sound (z : R) (u : Z) :
  exp z <= fixed u -> exp (2 * z) <= fixed (sq_up u).
Proof.
  intros Hle. pose proof IZR_scale_pos as HS. pose proof (exp_pos z) as Hz.
  unfold sq_up. eapply Rle_trans; [|apply fixed_ceil].
  rewrite mult_IZR, exp_double.
  replace (IZR u * IZR u / (IZR scale * IZR scale)) with (fixed u * fixed u)
    by (unfold fixed; field; lra).
  apply Rmult_le_compat; lra.
Qed.

Lemma iter_sq_down_sound (k : nat) : forall (z : R) (l : Z),
  (0 <= l)%Z -> fixed l <= exp z ->
  (0 <= Nat.iter k sq_down l)%Z /\
  fixed (Nat.iter k sq_down l) <= exp (2 ^ k * z).
Proof.
  induction k as [|k IH]; intros z l Hl Hle.
  - cbn [Nat.iter pow]. rewrite Rmult_1_l. now split.
  - destruct (IH z l Hl Hle) as [Hk0 Hk].
    cbn [Nat.iter pow]. rewrite Rmult_assoc.
    now apply sq_down_sound.
Qed.

Lemma iter_sq_up_sound (k : nat) : forall (z : R) (u : Z),
  exp z <= fixed u -> exp (2 ^ k * z) <= fixed (Nat.iter k sq_up u).
Proof.
  induction k as [|k IH]; intros z u Hle.
  - cbn [Nat.iter pow]. now rewrite Rmult_1_l.
  - cbn [Nat.iter pow]. rewrite Rmult_assoc.
    apply sq_up_sound. now apply IH.
Qed.

(** The upper bound the iteration starts from. *)
Lemma exp_le_inv (z : R) : z < 1 -> exp z <= / (1 - z).
Proof.
  intros Hz. pose proof (exp_ineq1_le (- z)) as H.
  rewrite exp_Ropp in H. pose proof (exp_pos z) as Hp.
  rewrite <- (Rinv_inv (exp z)).
  apply Rinv_le_contravar; lra.
Qed.

Lemma pow2_IZR (k : nat) : IZR (2 ^ Z.of_nat k) = 2 ^ k.
Proof. rewrite <- pow_IZR. reflexivity. Qed.

(** The enclosure of [exp (p / q)], for any number [k] of halvings. *)
Lemma exp_lower_sound (p q : Z) (k : nat) :
  (0 <= p)%Z -> (0 < q)%Z -> fixed (exp_lower p q k) <= exp (IZR p / IZR q).
Proof.
  intros Hp Hq. unfold exp_lower.
  set (m := (q * 2 ^ Z.of_nat k)%Z).
  assert (Hm : (0 < m)%Z) by (subst m; apply Z.mul_pos_pos; [lia | apply Z.pow_pos_nonneg; lia]).
  assert (HmR : 0 < IZR m) by now apply IZR_lt.
  assert (HqR : 0 < IZR q) by now apply IZR_lt.
  assert (H2k : 0 < 2 ^ k) by (apply pow_lt; lra).
  replace (IZR p / IZR q) with (2 ^ k * (IZR p / IZR m)).
  2:{ subst m. rewrite mult_IZR, pow2_IZR. field. lra. }
  apply iter_sq_down_sound.
  - pose proof scale_pos. pose proof (Z.div_pos (scale * p) m). nia.
  - eapply Rle_trans; [|apply exp_ineq1_le].
    pose proof IZR_scale_pos as HS. unfold fixed.
    assert (H : (m * (scale * p / m) <= scale * p)%Z) by (apply Z.mul_div_le; exact Hm).
    apply IZR_le in H. rewrite !mult_IZR in H. rewrite plus_IZR.
    apply Rmult_le_reg_r with (IZR scale * IZR m); [nra|].
    field_simplify; [|lra|lra]. nra.
Qed.

Lemma exp_upper_sound (p q : Z) (k : nat) :
  (0 <= p)%Z -> (p < q * 2 ^ Z.of_nat k)%Z ->
  exp (IZR p / IZR q) <= fixed (exp_upper p q k).
Proof.
  intros Hp Hlt. unfold exp_upper.
  set (m := (q * 2 ^ Z.of_nat k)%Z) in *.
  assert (H2kZ : (0 < 2 ^ Z.of_nat k)%Z) by (apply Z.pow_pos_nonneg; lia).
  assert (Hq : (0 < q)%Z) by (subst m; nia).
  assert (Hm : (0 < m)%Z) by lia.
  assert (HmR : 0 < IZR m) by now apply IZR_lt.
  assert (HqR : 0 < IZR q) by now apply IZR_lt.
  assert (HpR : 0 <= IZR p) by now apply IZR_le.
  assert (HltR : IZR p < IZR m) by now apply IZR_lt.
  assert (H2k : 0 < 2 ^ k) by (apply pow_lt; lra).
  replace (IZR p / IZR q) with (2 ^ k * (IZR p / IZR m)).
  2:{ subst m. rewrite mult_IZR, pow2_IZR. field. lra. }
  apply iter_sq_up_sound.
  assert (Hz : IZR p / IZR m < 1).
  { apply Rmult_lt_reg_r with (IZR m); [lra|]. field_simplify; lra. }
  eapply Rle_trans; [apply exp_le_inv; exact Hz|].
  pose proof IZR_scale_pos as HS. unfold fixed.
  assert (H : (scale * m <= (m - p) * ((scale * m + (m - p) - 1) / (m - p)))%Z).
  { pose proof (Z.mul_succ_div_gt (scale * m + (m - p) - 1) (m - p)). lia. }
  apply IZR_le in H. rewrite !mult_IZR, minus_IZR in H.
  set (c := IZR ((scale * m + (m - p) - 1) / (m - p))) in *.
  replace (/ (1 - IZR p / IZR m)) with (IZR m / (IZR m - IZR p)) by (field; lra).
  apply Rmult_le_reg_r with (IZR scale * (IZR m - IZR p)); [nra|].
  field_simplify; [|lra|lra]. nra.
Qed.
End ExpBound_sound.

(** ** Fixed-point bounds against rationals *)

Section Fixed.

Import ExpBound.
Local Open Scope R_scope.

(** A fixed-point bound checked on integers. *)
Lemma fixed_ge (n num den : Z) :
  (0 < den)%Z -> (num * scale <= n * den)%Z -> IZR num / IZR den <= fixed n.
Proof.
  intros Hden Hle. pose proof IZR_scale_pos as HS.
  assert (HdR : 0 < IZR den) by now apply IZR_lt.
  apply IZR_le in Hle. rewrite !mult_IZR in Hle. unfold fixed.
  apply Rmult_le_reg_r with (IZR den * IZR scale); [nra|].
  field_simplify; [|lra|lra]. nra.
Qed.

Lemma fixed_le (n num den : Z) :
  (0 < den)%Z -> (n * den <= num * scale)%Z -> fixed n <= IZR num / IZR den.
Proof.
  intros Hden Hle. pose proof IZR_scale_pos as HS.
  assert (HdR : 0 < IZR den) by now apply IZR_lt.
  apply IZR_le in Hle. rewrite !mult_IZR in Hle. unfold fixed.
  apply Rmult_le_reg_r with (IZR den * IZR scale); [nra|].
  field_simplify; [|lra|lra]. nra.
Qed.

End Fixed.

(** ** Binary64 operations against the reals

    The kernel specifies its floats through [SpecFloat]: [Prim2SF] sends
    a float to its sign, mantissa and exponent, and each operation is
    the specification function ([SFmul], [SFadd], [SFsub], [SFdiv]) on
    them.  This part derives what the standard model of floating-point
    arithmetic says of the four operations ([mul_real], [add_real],
    [sub_real], [div_real]): when the exact result [v] is below
    [2 ^ 1023] in magnitude, the computed result is finite and within
    [round_err v] of [v]. *)

Section Bpow.
Local Open Scope R_scope.

Lemma Rabs_le_inv (x a : R) : Rabs x <= a -> - a <= x <= a.
Proof. unfold Rabs. destruct (Rcase_abs x); lra. Qed.

Lemma bpow_pos (e : Z) : 0 < bpow e.
Proof. apply powerRZ_lt. lra. Qed.

Lemma bpow_add (e1 e2 : Z) : bpow (e1 + e2) = bpow e1 * bpow e2.
Proof. apply powerRZ_add. lra. Qed.

Lemma bpow_IZR (k : Z) : (0 <= k)%Z -> bpow k = IZR (2 ^ k).
Proof.
  intros Hk. unfold bpow. rewrite <- (Z2Nat.id k Hk) at 1.
  rewrite <- pow_powerRZ, pow_IZR, Z2Nat.id by exact Hk. reflexivity.
Qed.

Lemma bpow_succ (e : Z) : bpow (e + 1) = 2 * bpow e.
Proof.
  rewrite bpow_add. replace (bpow 1) with 2 by (symmetry; apply powerRZ_1). lra.
Qed.

Lemma bpow_1 : bpow 1 = 2.
Proof. apply powerRZ_1. Qed.

Lemma bpow_0 : bpow 0 = 1.
Proof. reflexivity. Qed.

Lemma bpow_le (e1 e2 : Z) : (e1 <= e2)%Z -> bpow e1 <= bpow e2.
Proof.
  intros H. replace e2 with (e1 + (e2 - e1))%Z by lia.
  rewrite bpow_add, (bpow_IZR (e2 - e1)) by lia.
  pose proof (bpow_pos e1).
  assert (1 <= IZR (2 ^ (e2 - e1))).
  { apply IZR_le. pose proof (Z.pow_pos_nonneg 2 (e2 - e1)). lia. }
  nra.
Qed.

Lemma bpow_lt (e1 e2 : Z) : (e1 < e2)%Z -> bpow e1 < bpow e2.
Proof.
  intros H. apply Rlt_le_trans with (bpow (e1 + 1)).
  - rewrite bpow_succ. pose proof (bpow_pos e1). lra.
  - apply bpow_le. lia.
Qed.

End Bpow.

Section Digits.
Local Open Scope Z_scope.

Lemma digits2_pos_size (p : positive) : digits2_pos p = Pos.size p.
Proof. induction p; cbn; congruence. Qed.

Lemma Zdigits2_bounds (m : Z) :
  0 < m -> 2 ^ (Zdigits2 m - 1) <= m < 2 ^ Zdigits2 m.
Proof.
  destruct m as [|p|p]; try lia. intros _. cbn [Zdigits2].
  rewrite digits2_pos_size. split.
  - pose proof (Pos.size_le p) as H.
    assert (H' : 2 ^ Z.pos (Pos.size p) <= 2 * Z.pos p).
    { rewrite <- Pos2Z.inj_pow. change (2 * Z.pos p) with (Z.pos p~0). lia. }
    replace (Z.pos (Pos.size p)) with (Z.pos (Pos.size p) - 1 + 1) in H' by lia.
    rewrite Z.pow_add_r in H' by lia. lia.
  - pose proof (Pos.size_gt p) as H. rewrite <- Pos2Z.inj_pow. lia.
Qed.

Lemma Zdigits2_nonneg (m : Z) : 0 <= Zdigits2 m.
Proof. destruct m; cbn; lia. Qed.

(** A lower bound on the number of digits from a lower bound on the
    value. *)
Lemma Zdigits2_ge (m k : Z) : 2 ^ k <= m -> 0 <= k -> k + 1 <= Zdigits2 m.
Proof.
  intros Hk Hk0.
  assert (Hm : 0 < m) by (pose proof (Z.pow_pos_nonneg 2 k); lia).
  destruct (Zdigits2_bounds m Hm) as [_ Hu].
  destruct (Z_lt_le_dec k (Zdigits2 m)) as [H | H]; [lia|].
  pose proof (Z.pow_le_mono_r 2 (Zdigits2 m) k ltac:(lia) H). lia.
Qed.

Lemma Zdigits2_le (m k : Z) : 0 <= m -> m < 2 ^ k -> 0 <= k -> Zdigits2 m <= k.
Proof.
  intros Hm Hk Hk0.
  destruct (Z.eq_dec m 0) as [-> | N]; [cbn; lia|].
  destruct (Zdigits2_bounds m ltac:(lia)) as [Hl _].
  destruct (Z_lt_le_dec k (Zdigits2 m)) as [H | H]; [|lia].
  pose proof (Z.pow_le_mono_r 2 k (Zdigits2 m - 1) ltac:(lia) ltac:(lia)). lia.
Qed.

Lemma shr_1_m (mrs : shr_record) :
  0 <= shr_m mrs -> shr_m (shr_1 mrs) = shr_m mrs / 2.
Proof.
  destruct mrs as [m r s]. cbn [shr_m]. intros Hm.
  destruct m as [|[p|p|]|p]; cbn [shr_1 shr_m]; try lia.
  - reflexivity.
  - rewrite Pos2Z.inj_xI. apply Z.div_unique with 1; lia.
  - rewrite Pos2Z.inj_xO. apply Z.div_unique with 0; lia.
  - reflexivity.
Qed.

Lemma iter_pos_shr_m (p : positive) : forall mrs,
  0 <= shr_m mrs ->
  shr_m (iter_pos shr_1 p mrs) = shr_m mrs / 2 ^ Z.pos p.
Proof.
  induction p as [p IH|p IH|]; intros mrs Hm; cbn [iter_pos].
  - assert (H1 : 0 <= shr_m (shr_1 mrs))
      by (rewrite shr_1_m by exact Hm; apply Z.div_pos; lia).
    assert (H2 : 0 <= shr_m (iter_pos shr_1 p (shr_1 mrs)))
      by (rewrite IH by exact H1; apply Z.div_pos; [exact H1|]; lia).
    rewrite IH, IH, shr_1_m by assumption.
    rewrite !Z.div_div by lia. f_equal.
    rewrite Pos2Z.inj_xI.
    replace (2 * Z.pos p + 1) with (1 + Z.pos p + Z.pos p) by lia.
    rewrite !Z.pow_add_r by lia. change (2 ^ 1) with 2. ring.
  - assert (H2 : 0 <= shr_m (iter_pos shr_1 p mrs))
      by (rewrite IH by exact Hm; apply Z.div_pos; [exact Hm|]; lia).
    rewrite IH, IH by assumption.
    rewrite Z.div_div by lia. f_equal.
    change (Z.pos p~0) with (2 * Z.pos p).
    replace (2 * Z.pos p) with (Z.pos p + Z.pos p) by lia.
    rewrite Z.pow_add_r by lia. reflexivity.
  - rewrite shr_1_m by exact Hm. reflexivity.
Qed.

End Digits.

Section Rounding.
Local Open Scope Z_scope.

Lemma fexp_eq (e : Z) : fexp prec emax e = fexp64 e.
Proof. reflexivity. Qed.

Lemma shr_fexp_spec (m e : Z) (l : location) :
  0 <= m ->
  let k := Z.max (fexp64 (Zdigits2 m + e) - e) 0 in
  shr_m (fst (shr_fexp prec emax m e l)) = m / 2 ^ k /\
  snd (shr_fexp prec emax m e l) = e + k /\
  (k = 0 -> fst (shr_fexp prec emax m e l) = shr_record_of_loc m l).
Proof.
  intros Hm k. unfold shr_fexp. rewrite fexp_eq. fold fexp64.
  assert (Hrec : shr_m (shr_record_of_loc m l) = m)
    by (destruct l as [|[]]; reflexivity).
  destruct (fexp64 (Zdigits2 m + e) - e) as [|p|p] eqn:En; subst k;
    cbn [shr fst snd].
  - rewrite Z.max_id, Z.div_1_r, Z.add_0_r. now rewrite Hrec.
  - rewrite Z.max_l by lia. rewrite iter_pos_shr_m by (rewrite Hrec; exact Hm).
    rewrite Hrec. repeat split. lia.
  - rewrite Z.max_r by lia. rewrite Z.div_1_r, Z.add_0_r. now rewrite Hrec.
Qed.

Lemma round_nearest_even_cases (m : Z) (l : location) :
  round_nearest_even m l = m \/ round_nearest_even m l = m + 1.
Proof.
  destruct l as [|[]]; cbn; auto. destruct (Z.even m); auto.
Qed.

Lemma round_nearest_even_exact (m : Z) : round_nearest_even m loc_Exact = m.
Proof. reflexivity. Qed.

(** What [binary_round_aux] returns, as integers: the mantissa is
    shifted, rounded to one of its two neighbours, and shifted again. *)
Lemma binary_round_aux_shape (s : bool) (m e : Z) (l : location) :
  0 <= m ->
  exists m1 e1 m2 m3 e3 k1 k2,
    k1 = Z.max (fexp64 (Zdigits2 m + e) - e) 0 /\
    m1 = m / 2 ^ k1 /\ e1 = e + k1 /\
    (m2 = m1 \/ m2 = m1 + 1) /\
    (k1 = 0 -> l = loc_Exact -> m2 = m1) /\
    k2 = Z.max (fexp64 (Zdigits2 m2 + e1) - e1) 0 /\
    m3 = m2 / 2 ^ k2 /\ e3 = e1 + k2 /\
    binary_round_aux prec emax s m e l =
      match m3 with
      | Z0 => S754_zero s
      | Zpos p => if e3 <=? emax - prec then S754_finite s p e3
                  else S754_infinity s
      | Zneg _ => S754_nan
      end.
Proof.
  intros Hm.
  destruct (shr_fexp_spec m e l Hm) as (H1m & H1e & H1x).
  unfold binary_round_aux.
  destruct (shr_fexp prec emax m e l) as [mrs' e'] eqn:E1. cbn [fst snd] in *.
  set (m2 := round_nearest_even (shr_m mrs') (loc_of_shr_record mrs')).
  assert (Hm1 : 0 <= shr_m mrs')
    by (rewrite H1m; apply Z.div_pos; [exact Hm|]; apply Z.pow_pos_nonneg; lia).
  assert (Hm2 : 0 <= m2)
    by (subst m2; destruct (round_nearest_even_cases (shr_m mrs')
                              (loc_of_shr_record mrs')) as [-> | ->]; lia).
  destruct (shr_fexp_spec m2 e' loc_Exact Hm2) as (H2m & H2e & _).
  destruct (shr_fexp prec emax m2 e' loc_Exact) as [mrs'' e''] eqn:E2.
  cbn [fst snd] in *.
  exists (shr_m mrs'), e', m2, (shr_m mrs''), e''.
  eexists _, _. repeat split; try eassumption; try reflexivity.
  - subst m2. apply round_nearest_even_cases.
  - intros Hk Hl. subst m2 l. rewrite (H1x Hk). reflexivity.
Qed.

End Rounding.

Section Rounding_real.
Local Open Scope R_scope.

Lemma IZR_div_pow2_bounds (m k : Z) :
  (0 <= m)%Z -> (0 <= k)%Z ->
  IZR (m / 2 ^ k) * bpow k <= IZR m < (IZR (m / 2 ^ k) + 1) * bpow k.
Proof.
  intros Hm Hk. rewrite (bpow_IZR k Hk).
  assert (Hp : (0 < 2 ^ k)%Z) by (apply Z.pow_pos_nonneg; lia).
  pose proof (Z.mul_div_le m (2 ^ k) Hp) as H1.
  pose proof (Z.mul_succ_div_gt m (2 ^ k) Hp) as H2.
  rewrite <- mult_IZR. rewrite <- (plus_IZR _ 1), <- mult_IZR.
  split; [apply IZR_le | apply IZR_lt]; lia.
Qed.

(** The value of a rounded result, against the real number [v] that the
    pair [m], [e] stands for: [m] is the integer part of [v / 2 ^ e]. *)
Lemma binary_round_aux_real (s : bool) (m e : Z) (l : location) (v : R) :
  (0 <= m)%Z ->
  (e <= fexp64 (Zdigits2 m + e))%Z ->
  IZR m * bpow e <= v < (IZR m + 1) * bpow e ->
  (l = loc_Exact -> v = IZR m * bpow e) ->
  exists m3 e3,
    (0 <= m3)%Z /\
    binary_round_aux prec emax s m e l =
      match m3 with
      | Z0 => S754_zero s
      | Zpos p => if (e3 <=? emax - prec)%Z then S754_finite s p e3
                  else S754_infinity s
      | Zneg _ => S754_nan
      end /\
    Rabs (IZR m3 * bpow e3 - v) <= 2 * bpow e3 /\
    (m3 = 0%Z -> v < bpow (-1074)) /\
    (971 < e3 -> 2 ^ 52 <= m3)%Z /\
    (fexp64 (Zdigits2 m + e) = e -> l = loc_Exact -> v = IZR m3 * bpow e3).
Proof.
  intros Hm HH Hv Hex.
  destruct (binary_round_aux_shape s m e l Hm)
    as (m1 & e1 & m2 & m3 & e3 & k1 & k2 & Hk1 & Hm1 & He1 & Hm2 & Hm2x
        & Hk2 & Hm3 & He3 & Hres).
  assert (Hk1' : k1 = (fexp64 (Zdigits2 m + e) - e)%Z) by lia.
  assert (Hk1n : (0 <= k1)%Z) by lia.
  assert (Hk2n : (0 <= k2)%Z) by lia.
  assert (Hm1n : (0 <= m1)%Z)
    by (subst m1; apply Z.div_pos; [exact Hm|]; apply Z.pow_pos_nonneg; lia).
  assert (Hm2n : (0 <= m2)%Z) by lia.
  assert (Hm3n : (0 <= m3)%Z)
    by (subst m3; apply Z.div_pos; [exact Hm2n|]; apply Z.pow_pos_nonneg; lia).
  (* real bounds on the first shift *)
  pose proof (IZR_div_pow2_bounds m k1 Hm Hk1n) as [F1 F2]. rewrite <- Hm1 in F1, F2.
  assert (Be1 : bpow e1 = bpow e * bpow k1) by (rewrite He1; apply bpow_add).
  assert (Be3 : bpow e3 = bpow e1 * bpow k2) by (rewrite He3; apply bpow_add).
  pose proof (bpow_pos e) as Pe. pose proof (bpow_pos k1) as Pk1.
  pose proof (bpow_pos k2) as Pk2. pose proof (bpow_pos e1) as Pe1.
  pose proof (bpow_pos e3) as Pe3.
  assert (V1 : IZR m1 * bpow e1 <= v) by (rewrite Be1; nra).
  assert (V2 : v < (IZR m1 + 1) * bpow e1).
  { rewrite Be1. destruct Hv as [_ Hv].
    assert (IZR m + 1 <= (IZR m1 + 1) * bpow k1).
    { rewrite (bpow_IZR k1 Hk1n), <- (plus_IZR m 1), <- (plus_IZR m1 1), <- mult_IZR.
      apply IZR_le.
      assert (Hp : (0 < 2 ^ k1)%Z) by (apply Z.pow_pos_nonneg; lia).
      pose proof (Z.mul_succ_div_gt m (2 ^ k1) Hp). rewrite <- Hm1 in H. lia. }
    nra. }
  pose proof (IZR_div_pow2_bounds m2 k2 Hm2n Hk2n) as [G1 G2].
  rewrite <- Hm3 in G1, G2.
  assert (M2 : IZR m1 <= IZR m2 <= IZR m1 + 1).
  { destruct Hm2 as [-> | ->]; [lra|]. rewrite plus_IZR. lra. }
  assert (K2 : 1 <= bpow k2).
  { rewrite (bpow_IZR k2 Hk2n). apply IZR_le.
    pose proof (Z.pow_pos_nonneg 2 k2). lia. }
  exists m3, e3. split; [exact Hm3n|]. split; [exact Hres|].
  split; [|split; [|split]].
  - (* error *)
    rewrite Be3. apply Rabs_le. split; nra.
  - (* zero *)
    intros Z3.
    destruct (Z.eq_dec m2 0) as [Z2 | N2].
    + assert (Z1 : m1 = 0%Z) by lia.
      assert (E1 : e1 = (-1074)%Z).
      { destruct (Z.eq_dec m 0) as [Z0 | N0].
        - subst m. cbn [Zdigits2] in *. unfold fexp64 in *. lia.
        - destruct (Zdigits2_bounds m ltac:(lia)) as [L _].
          assert (m < 2 ^ k1)%Z.
          { destruct (Z_lt_le_dec m (2 ^ k1)) as [H|H]; [exact H|].
            assert (1 <= m / 2 ^ k1)%Z
              by (apply Z.div_le_lower_bound; [apply Z.pow_pos_nonneg|]; lia).
            lia. }
          assert (Zdigits2 m - 1 < k1)%Z.
          { destruct (Z_lt_le_dec (Zdigits2 m - 1) k1) as [H'|H']; [exact H'|].
            pose proof (Z.pow_le_mono_r 2 k1 (Zdigits2 m - 1) ltac:(lia) H'). lia. }
          unfold fexp64 in *. lia. }
      rewrite Z1 in V2. rewrite E1 in V2. lra.
    + assert (Hlt : (m2 < 2 ^ k2)%Z).
      { destruct (Z_lt_le_dec m2 (2 ^ k2)) as [H|H]; [exact H|].
        assert (1 <= m2 / 2 ^ k2)%Z
          by (apply Z.div_le_lower_bound; [apply Z.pow_pos_nonneg|]; lia).
        lia. }
      destruct (Zdigits2_bounds m2 ltac:(lia)) as [L _].
      assert (Zdigits2 m2 - 1 < k2)%Z.
      { destruct (Z_lt_le_dec (Zdigits2 m2 - 1) k2) as [H'|H']; [exact H'|].
        pose proof (Z.pow_le_mono_r 2 k2 (Zdigits2 m2 - 1) ltac:(lia) H'). lia. }
      pose proof (Zdigits2_ge m2 0 ltac:(cbn; lia) ltac:(lia)) as D2.
      assert (E3 : e3 = (-1074)%Z) by (unfold fexp64 in *; lia).
      rewrite <- E3, Be3.
      assert (IZR m2 + 1 <= bpow k2).
      { rewrite (bpow_IZR k2 Hk2n), <- (plus_IZR m2 1). apply IZR_le. lia. }
      nra.
  - (* overflow *)
    intros Hbig.
    destruct (Z.eq_dec k2 0) as [K0 | KN].
    + assert (m3 = m2) by (subst m3; rewrite K0; apply Z.div_1_r).
      assert (e3 = e1) by lia.
      assert (Hmpos : (0 < m)%Z).
      { destruct (Z.eq_dec m 0) as [Z0|]; [|lia].
        subst m. cbn [Zdigits2] in *. unfold fexp64 in *. lia. }
      destruct (Zdigits2_bounds m Hmpos) as [L _].
      assert (Hk : k1 = (Zdigits2 m - 53)%Z) by (unfold fexp64 in *; lia).
      assert (2 ^ 52 <= m1)%Z.
      { subst m1. apply Z.div_le_lower_bound; [apply Z.pow_pos_nonneg; lia|].
        rewrite <- Z.pow_add_r by lia.
        replace (k1 + 52)%Z with (Zdigits2 m - 1)%Z by lia. exact L. }
      lia.
    + assert (Hm2pos : (0 < m2)%Z).
      { destruct (Z.eq_dec m2 0) as [Z0|]; [|lia].
        subst m2. cbn [Zdigits2] in *. unfold fexp64 in *. lia. }
      destruct (Zdigits2_bounds m2 Hm2pos) as [L _].
      assert (Hk : k2 = (Zdigits2 m2 - 53)%Z) by (unfold fexp64 in *; lia).
      subst m3. apply Z.div_le_lower_bound; [apply Z.pow_pos_nonneg; lia|].
      rewrite <- Z.pow_add_r by lia.
      replace (k2 + 52)%Z with (Zdigits2 m2 - 1)%Z by lia. exact L.
  - (* exact *)
    intros Hcan Hl.
    assert (K1 : k1 = 0%Z) by lia.
    assert (A1 : m1 = m) by (rewrite Hm1, K1; apply Z.div_1_r).
    assert (A2 : e1 = e) by lia.
    assert (A3 : m2 = m) by (rewrite (Hm2x K1 Hl); exact A1).
    assert (K2z : k2 = 0%Z) by (rewrite Hk2, A3, A2, Hcan; lia).
    assert (A4 : m3 = m) by (rewrite Hm3, K2z, Z.div_1_r; exact A3).
    assert (A5 : e3 = e) by lia.
    rewrite A4, A5. now apply Hex.
Qed.

End Rounding_real.

Section Valid.
Local Open Scope Z_scope.

Lemma valid_finite_inv (s : bool) (m : positive) (e : Z) :
  SpecFloat.valid_binary prec emax (S754_finite s m e) = true ->
  fexp64 (Zdigits2 (Z.pos m) + e) = e /\ e <= 971.
Proof.
  cbn [SpecFloat.valid_binary]. unfold bounded, canonical_mantissa.
  rewrite andb_true_iff, Z.eqb_eq, Z.leb_le. rewrite fexp_eq.
  intros [H1 H2]. split; [exact H1|]. exact H2.
Qed.

Lemma canonical_digits (m e : Z) :
  0 < m -> fexp64 (Zdigits2 m + e) = e ->
  Zdigits2 m <= 53 /\ -1074 <= e /\ (e = -1074 \/ 2 ^ 52 <= m).
Proof.
  intros Hm Hc. destruct (Zdigits2_bounds m Hm) as [L U].
  unfold fexp64 in Hc. repeat split; try lia.
  destruct (Z.eq_dec e (-1074)) as [E | N]; [now left | right].
  assert (Zdigits2 m = 53) by lia.
  replace 52 with (Zdigits2 m - 1) by lia. exact L.
Qed.

End Valid.

Section Rounded.
Local Open Scope R_scope.

Lemma sgn_abs (s : bool) (a : R) : 0 <= a -> Rabs (sgn s * a) = a.
Proof.
  intros Ha. unfold sgn. destruct s.
  - replace (-1 * a) with (- a) by lra. rewrite Rabs_Ropp. now apply Rabs_pos_eq.
  - rewrite Rmult_1_l. now apply Rabs_pos_eq.
Qed.

Lemma bpow_1023_lt : (IZR (2 ^ 52) - 2) * bpow 972 >= bpow 1023.
Proof.
  rewrite (bpow_IZR 972), (bpow_IZR 1023) by lia.
  rewrite <- (minus_IZR _ 2), <- mult_IZR. apply Rle_ge, IZR_le.
  vm_compute. discriminate.
Qed.

(** A valid result of [binary_round_aux], below the overflow threshold,
    is finite and within [round_err] of the value it rounds. *)
Lemma binary_round_aux_rounded (s : bool) (m e : Z) (l : location) (v : R) :
  (0 <= m)%Z ->
  (e <= fexp64 (Zdigits2 m + e))%Z ->
  IZR m * bpow e <= v < (IZR m + 1) * bpow e ->
  (l = loc_Exact -> v = IZR m * bpow e) ->
  SpecFloat.valid_binary prec emax (binary_round_aux prec emax s m e l) = true ->
  v < bpow 1023 ->
  exists a : R,
    SFfinite (binary_round_aux prec emax s m e l) = true /\
    SF2R (binary_round_aux prec emax s m e l) = sgn s * a /\
    0 <= a /\
    Rabs (a - v) <= round_err v /\
    (fexp64 (Zdigits2 m + e) = e -> l = loc_Exact -> a = v).
Proof.
  intros Hm HH Hv Hex Hvalid Hsmall.
  destruct (binary_round_aux_real s m e l v Hm HH Hv Hex)
    as (m3 & e3 & Hm3 & Hres & Herr & Hzero & Hover & Hexact).
  rewrite Hres in *. clear Hres.
  assert (Hv0 : 0 <= v).
  { destruct Hv as [Hv _]. pose proof (bpow_pos e).
    assert (0 <= IZR m) by (apply IZR_le; exact Hm). nra. }
  assert (P50 : 0 < bpow (-50)) by apply bpow_pos.
  assert (P1073 : bpow (-1073) = 2 * bpow (-1074))
    by (rewrite <- (bpow_succ (-1074)); reflexivity).
  pose proof (bpow_pos (-1074)) as P1074.
  unfold round_err. rewrite (Rabs_pos_eq v Hv0).
  destruct m3 as [|p|p]; [| |lia].
  - exists 0. cbn [SFfinite SF2R]. repeat split; try lra.
    + specialize (Hzero eq_refl). rewrite Rminus_0_l, Rabs_Ropp, (Rabs_pos_eq v Hv0).
      nra.
    + intros Hc Hl. rewrite (Hexact Hc Hl). lra.
  - destruct (e3 <=? emax - prec)%Z eqn:Ele.
    + exists (IZR (Z.pos p) * bpow e3).
      pose proof (bpow_pos e3) as Pe3.
      assert (Pp : 0 < IZR (Z.pos p)) by (apply IZR_lt; lia).
      cbn [SFfinite SF2R]. split; [reflexivity|]. split.
      { unfold sgn. destruct s; lra. }
      split; [nra|]. split.
      * destruct (valid_finite_inv _ _ _ Hvalid) as [Hc _].
        destruct (canonical_digits _ _ (Pos2Z.is_pos p) Hc) as (_ & _ & [E | Hbig]).
        -- rewrite E in *. nra.
        -- apply IZR_le in Hbig.
           assert (Hu : 2 * bpow e3 <= bpow (-51) * (IZR (Z.pos p) * bpow e3)).
           { assert (T : bpow (-51) * IZR (2 ^ 52) = 2).
             { rewrite <- (bpow_IZR 52), <- bpow_add by lia. exact bpow_1. }
             pose proof (bpow_pos (-51)). nra. }
           set (a := IZR (Z.pos p) * bpow e3) in *.
           assert (Ha : Rabs (a - v) <= bpow (-51) * a) by lra.
           assert (B51 : bpow (-50) = 2 * bpow (-51))
             by (rewrite <- (bpow_succ (-51)); reflexivity).
           assert (S51 : bpow (-51) <= / 2).
           { assert (T : bpow (-51) * bpow 50 = / 2).
             { rewrite <- bpow_add. change (-51 + 50)%Z with (-1)%Z.
               assert (bpow (-1) * 2 = 1)
                 by (rewrite <- bpow_1, <- bpow_add; exact bpow_0).
               lra. }
             assert (1 <= bpow 50) by (rewrite <- bpow_0; apply bpow_le; lia).
             pose proof (bpow_pos (-51)). nra. }
           pose proof (bpow_pos (-51)) as P51.
           apply Rabs_le_inv in Ha. apply Rabs_le. split; nra.
      * intros Hc Hl. rewrite (Hexact Hc Hl). reflexivity.
    + exfalso.
      assert (Hbig : (971 < e3)%Z) by (apply Z.leb_gt in Ele; exact Ele).
      specialize (Hover Hbig). apply IZR_le in Hover.
      apply Rabs_le_inv in Herr.
      pose proof (bpow_le 972 e3 ltac:(lia)) as B.
      pose proof bpow_1023_lt as T. pose proof (bpow_pos 972).
      assert (IZR (2 ^ 52) - 2 >= 0).
      { rewrite <- (minus_IZR _ 2). apply Rle_ge, IZR_le. vm_compute. discriminate. }
      nra.
Qed.

End Rounded.

Section Operations_real.
Local Open Scope R_scope.

Lemma SF2R_finite (s : bool) (m : positive) (e : Z) :
  SF2R (S754_finite s m e) = sgn s * (IZR (Z.pos m) * bpow e).
Proof. unfold SF2R, sgn. destruct s; lra. Qed.

Lemma sgn_xorb (s1 s2 : bool) : sgn (xorb s1 s2) = sgn s1 * sgn s2.
Proof. destruct s1, s2; unfold sgn; cbn; lra. Qed.

Lemma sgn_sqr (s : bool) : sgn s * sgn s = 1.
Proof. destruct s; unfold sgn; lra. Qed.

Lemma Rabs_sgn_mul (s : bool) (x : R) : Rabs (sgn s * x) = Rabs x.
Proof.
  unfold sgn. destruct s.
  - replace (-1 * x) with (- x) by lra. apply Rabs_Ropp.
  - now rewrite Rmult_1_l.
Qed.

Lemma round_err_nonneg (v : R) : 0 <= round_err v.
Proof.
  unfold round_err. pose proof (bpow_pos (-50)). pose proof (bpow_pos (-1073)).
  pose proof (Rabs_pos v). nra.
Qed.

Lemma round_err_sgn (s : bool) (v : R) : round_err (sgn s * v) = round_err v.
Proof. unfold round_err. now rewrite Rabs_sgn_mul. Qed.

Lemma Zdigits2_pos_ge_1 (m : positive) : (1 <= Zdigits2 (Z.pos m))%Z.
Proof. apply (Zdigits2_ge (Z.pos m) 0); cbn; lia. Qed.

Lemma Zdigits2_mul_ge (mx my : positive) :
  (Zdigits2 (Z.pos mx) + Zdigits2 (Z.pos my) - 1
   <= Zdigits2 (Z.pos mx * Z.pos my))%Z.
Proof.
  destruct (Zdigits2_bounds (Z.pos mx) (Pos2Z.is_pos mx)) as [Lx _].
  destruct (Zdigits2_bounds (Z.pos my) (Pos2Z.is_pos my)) as [Ly _].
  pose proof (Zdigits2_pos_ge_1 mx). pose proof (Zdigits2_pos_ge_1 my).
  set (dx := Zdigits2 (Z.pos mx)) in *. set (dy := Zdigits2 (Z.pos my)) in *.
  replace (dx + dy - 1)%Z with ((dx - 1) + (dy - 1) + 1)%Z by lia.
  apply Zdigits2_ge; [|lia].
  rewrite Z.pow_add_r by lia.
  apply Z.mul_le_mono_nonneg; try assumption; apply Z.pow_nonneg; lia.
Qed.

Lemma SFmul_real (x y : spec_float) :
  SpecFloat.valid_binary prec emax x = true ->
  SpecFloat.valid_binary prec emax y = true ->
  SFfinite x = true -> SFfinite y = true ->
  SpecFloat.valid_binary prec emax (SFmul prec emax x y) = true ->
  Rabs (SF2R x * SF2R y) < bpow 1023 ->
  SFfinite (SFmul prec emax x y) = true /\
  Rabs (SF2R (SFmul prec emax x y) - SF2R x * SF2R y)
    <= round_err (SF2R x * SF2R y).
Proof.
  intros Vx Vy Fx Fy Vr Hsmall.
  destruct x as [sx|sx| |sx mx ex], y as [sy|sy| |sy my ey];
    try discriminate; cbn [SFmul] in *;
    try (split; [reflexivity|]; cbn [SF2R];
         rewrite ?Rmult_0_l, ?Rmult_0_r, Rminus_0_r, Rabs_R0;
         apply round_err_nonneg).
  destruct (valid_finite_inv _ _ _ Vx) as [Cx _].
  destruct (valid_finite_inv _ _ _ Vy) as [Cy _].
  destruct (canonical_digits _ _ (Pos2Z.is_pos mx) Cx) as (_ & Ex & Dx).
  destruct (canonical_digits _ _ (Pos2Z.is_pos my) Cy) as (_ & Ey & Dy).
  set (v := IZR (Z.pos (mx * my)) * bpow (ex + ey)).
  assert (Hprod : SF2R (S754_finite sx mx ex) * SF2R (S754_finite sy my ey)
                  = sgn (xorb sx sy) * v).
  { rewrite !SF2R_finite, sgn_xorb. unfold v.
    rewrite Pos2Z.inj_mul, mult_IZR, bpow_add. ring. }
  assert (Hv0 : 0 <= v).
  { unfold v. pose proof (bpow_pos (ex + ey)).
    assert (0 < IZR (Z.pos (mx * my))) by (apply IZR_lt; lia). nra. }
  rewrite Hprod in *. rewrite Rabs_sgn_mul, (Rabs_pos_eq v Hv0) in Hsmall.
  assert (HH : (ex + ey <= fexp64 (Zdigits2 (Z.pos (mx * my)) + (ex + ey)))%Z).
  { pose proof (Zdigits2_mul_ge mx my) as D. rewrite <- Pos2Z.inj_mul in D.
    pose proof (Zdigits2_pos_ge_1 mx). pose proof (Zdigits2_pos_ge_1 my).
    unfold fexp64.
    destruct Dx as [Dx | Dx]; [destruct Dy as [Dy | Dy]|].
    - lia.
    - pose proof (Zdigits2_ge _ 52 Dy ltac:(lia)). lia.
    - pose proof (Zdigits2_ge _ 52 Dx ltac:(lia)). lia. }
  destruct (binary_round_aux_rounded (xorb sx sy) (Z.pos (mx * my)) (ex + ey)
              loc_Exact v ltac:(lia) HH) as (a & Fa & Ra & Pa & Ea & _);
    try assumption.
  - unfold v. pose proof (bpow_pos (ex + ey)). split; lra.
  - reflexivity.
  - split; [exact Fa|]. rewrite Ra, round_err_sgn.
    replace (sgn (xorb sx sy) * a - sgn (xorb sx sy) * v)
      with (sgn (xorb sx sy) * (a - v)) by ring.
    now rewrite Rabs_sgn_mul.
Qed.

Lemma Pos_iter_xO (m d : positive) :
  Z.pos (Pos.iter xO m d) = (Z.pos m * 2 ^ Z.pos d)%Z.
Proof.
  induction d as [|d IH] using Pos.peano_ind.
  - cbn. lia.
  - rewrite Pos.iter_succ, Pos2Z.inj_xO, IH, Pos2Z.inj_succ, Z.pow_succ_r by lia.
    ring.
Qed.

Lemma shl_align_spec (mx : positive) (ex ex' : Z) :
  snd (shl_align mx ex ex') = Z.min ex ex' /\
  Z.pos (fst (shl_align mx ex ex'))
    = (Z.pos mx * 2 ^ (ex - Z.min ex ex'))%Z.
Proof.
  unfold shl_align. destruct (ex' - ex)%Z as [|d|d] eqn:E; cbn [fst snd].
  - rewrite Z.min_l by lia. rewrite Z.sub_diag. split; lia.
  - rewrite Z.min_l by lia. rewrite Z.sub_diag. split; lia.
  - rewrite Z.min_r by lia. split; [reflexivity|].
    rewrite Pos_iter_xO. f_equal. f_equal. lia.
Qed.

Lemma Zdigits2_shift (m k : Z) :
  (0 < m)%Z -> (0 <= k)%Z -> Zdigits2 (m * 2 ^ k) = (Zdigits2 m + k)%Z.
Proof.
  intros Hm Hk. destruct (Zdigits2_bounds m Hm) as [L U].
  pose proof (Zdigits2_ge m 0 ltac:(cbn; lia) ltac:(lia)) as D.
  assert (P : (0 < 2 ^ k)%Z) by (apply Z.pow_pos_nonneg; lia).
  apply Z.le_antisymm.
  - apply Zdigits2_le; [nia | | lia].
    rewrite Z.pow_add_r by lia. nia.
  - replace (Zdigits2 m + k)%Z with ((Zdigits2 m - 1 + k) + 1)%Z by lia.
    apply Zdigits2_ge; [|lia]. rewrite Z.pow_add_r by lia. nia.
Qed.

Lemma IZR_shift (m : positive) (e e' : Z) :
  (e' <= e)%Z ->
  IZR (Z.pos m * 2 ^ (e - e')) * bpow e' = IZR (Z.pos m) * bpow e.
Proof.
  intros H. rewrite mult_IZR, <- (bpow_IZR (e - e')) by lia.
  rewrite Rmult_assoc, <- bpow_add. f_equal. f_equal. lia.
Qed.

Lemma binary_round_real (s : bool) (m : positive) (e : Z) :
  SpecFloat.valid_binary prec emax (binary_round prec emax s m e) = true ->
  IZR (Z.pos m) * bpow e < bpow 1023 ->
  SFfinite (binary_round prec emax s m e) = true /\
  Rabs (SF2R (binary_round prec emax s m e) - sgn s * (IZR (Z.pos m) * bpow e))
    <= round_err (IZR (Z.pos m) * bpow e).
Proof.
  intros Vr Hsmall. unfold binary_round in *. rewrite fexp_eq in *.
  set (e' := fexp64 (Z.pos (digits2_pos m) + e)) in *.
  destruct (shl_align_spec m e e') as [He Hm].
  destruct (shl_align m e e') as [mz ez]. cbn [fst snd] in *.
  set (v := IZR (Z.pos m) * bpow e) in *.
  assert (Hval : IZR (Z.pos mz) * bpow ez = v).
  { rewrite Hm, He. apply IZR_shift. lia. }
  assert (Hdig : (Zdigits2 (Z.pos mz) + ez = Zdigits2 (Z.pos m) + e)%Z).
  { rewrite Hm, Zdigits2_shift by lia. lia. }
  assert (HH : (ez <= fexp64 (Zdigits2 (Z.pos mz) + ez))%Z).
  { rewrite Hdig. change (Zdigits2 (Z.pos m)) with (Z.pos (digits2_pos m)).
    fold e'. lia. }
  destruct (binary_round_aux_rounded s (Z.pos mz) ez loc_Exact v
              ltac:(lia) HH) as (a & Fa & Ra & Pa & Ea & _); try assumption.
  - rewrite Hval. pose proof (bpow_pos ez). split; [lra|].
    rewrite <- Hval. lra.
  - intros _. now rewrite Hval.
  - split; [exact Fa|]. rewrite Ra.
    replace (sgn s * a - sgn s * v) with (sgn s * (a - v)) by ring.
    now rewrite Rabs_sgn_mul.
Qed.

Lemma binary_normalize_real (z e : Z) (szero : bool) :
  SpecFloat.valid_binary prec emax (binary_normalize prec emax z e szero) = true ->
  Rabs (IZR z * bpow e) < bpow 1023 ->
  SFfinite (binary_normalize prec emax z e szero) = true /\
  Rabs (SF2R (binary_normalize prec emax z e szero) - IZR z * bpow e)
    <= round_err (IZR z * bpow e).
Proof.
  intros Vr Hsmall. pose proof (bpow_pos e) as Pe.
  destruct z as [|p|p]; cbn [binary_normalize] in *.
  - split; [reflexivity|]. cbn [SF2R].
    rewrite Rmult_0_l, Rminus_0_r, Rabs_R0. apply round_err_nonneg.
  - assert (P : 0 < IZR (Z.pos p)) by (apply IZR_lt; lia).
    rewrite Rabs_pos_eq in Hsmall by nra.
    destruct (binary_round_real false p e Vr Hsmall) as [F E].
    split; [exact F|]. unfold sgn in E. now rewrite Rmult_1_l in E.
  - assert (P : 0 < IZR (Z.pos p)) by (apply IZR_lt; lia).
    change (Z.neg p) with (- Z.pos p)%Z in *. rewrite opp_IZR in *.
    replace (- IZR (Z.pos p) * bpow e) with (- (IZR (Z.pos p) * bpow e)) in * by ring.
    rewrite Rabs_Ropp, Rabs_pos_eq in Hsmall by nra.
    destruct (binary_round_real true p e Vr Hsmall) as [F E].
    split; [exact F|]. unfold sgn in E.
    unfold round_err in *. rewrite Rabs_Ropp.
    replace (-1 * (IZR (Z.pos p) * bpow e)) with (- (IZR (Z.pos p) * bpow e)) in E by ring.
    exact E.
Qed.

Lemma cond_Zopp_aligned (s : bool) (m : positive) (e ez : Z) :
  (ez <= e)%Z ->
  IZR (cond_Zopp s (Z.pos (fst (shl_align m e ez)))) * bpow ez
  = SF2R (S754_finite s m e).
Proof.
  intros H. destruct (shl_align_spec m e ez) as [_ Hm]. rewrite Hm.
  rewrite Z.min_r by lia. rewrite SF2R_finite.
  unfold cond_Zopp, sgn. destruct s.
  - rewrite opp_IZR. rewrite <- (IZR_shift m e ez H). ring.
  - rewrite <- (IZR_shift m e ez H). ring.
Qed.

Lemma SFadd_real (x y : spec_float) :
  SFfinite x = true -> SFfinite y = true ->
  SpecFloat.valid_binary prec emax (SFadd prec emax x y) = true ->
  Rabs (SF2R x + SF2R y) < bpow 1023 ->
  SFfinite (SFadd prec emax x y) = true /\
  Rabs (SF2R (SFadd prec emax x y) - (SF2R x + SF2R y))
    <= round_err (SF2R x + SF2R y).
Proof.
  intros Fx Fy Vr Hsmall.
  destruct x as [sx|sx| |sx mx ex], y as [sy|sy| |sy my ey];
    try discriminate; cbn [SFadd] in *.
  - split; [now destruct sx, sy|]. replace (SF2R _) with 0 by (now destruct sx, sy).
    cbn [SF2R]. rewrite Rplus_0_l, Rminus_0_r, Rabs_R0. apply round_err_nonneg.
  - split; [reflexivity|]. cbn [SF2R]. rewrite Rplus_0_l.
    rewrite Rminus_diag, Rabs_R0. apply round_err_nonneg.
  - split; [reflexivity|]. cbn [SF2R]. rewrite Rplus_0_r.
    rewrite Rminus_diag, Rabs_R0. apply round_err_nonneg.
  - set (ez := Z.min ex ey) in *.
    rewrite <- (cond_Zopp_aligned sx mx ex ez), <- (cond_Zopp_aligned sy my ey ez)
      in * by lia.
    rewrite <- Rmult_plus_distr_r, <- plus_IZR in *.
    now apply binary_normalize_real.
Qed.

Lemma SFsub_real (x y : spec_float) :
  SFfinite x = true -> SFfinite y = true ->
  SpecFloat.valid_binary prec emax (SFsub prec emax x y) = true ->
  Rabs (SF2R x - SF2R y) < bpow 1023 ->
  SFfinite (SFsub prec emax x y) = true /\
  Rabs (SF2R (SFsub prec emax x y) - (SF2R x - SF2R y))
    <= round_err (SF2R x - SF2R y).
Proof.
  intros Fx Fy Vr Hsmall.
  destruct x as [sx|sx| |sx mx ex], y as [sy|sy| |sy my ey];
    try discriminate; cbn [SFsub] in *.
  - split; [now destruct sx, sy|]. replace (SF2R _) with 0 by (now destruct sx, sy).
    cbn [SF2R]. rewrite Rminus_0_r, Rminus_0_r, Rabs_R0. apply round_err_nonneg.
  - split; [reflexivity|]. rewrite !SF2R_finite. cbn [SF2R].
    replace (sgn (negb sy)) with (- sgn sy) by (destruct sy; unfold sgn; cbn; lra).
    match goal with |- Rabs ?t <= _ => replace t with 0 by ring end.
    rewrite Rabs_R0. apply round_err_nonneg.
  - split; [reflexivity|]. cbn [SF2R]. rewrite Rminus_0_r.
    rewrite Rminus_diag, Rabs_R0. apply round_err_nonneg.
  - set (ez := Z.min ex ey) in *.
    rewrite <- (cond_Zopp_aligned sx mx ex ez), <- (cond_Zopp_aligned sy my ey ez)
      in * by lia.
    rewrite <- Rmult_minus_distr_r, <- minus_IZR in *.
    now apply binary_normalize_real.
Qed.

Lemma new_location_exact (nb r : Z) :
  new_location nb r = loc_Exact -> r = 0%Z.
Proof.
  unfold new_location, new_location_even, new_location_odd.
  destruct (Z.even nb); destruct (r =? 0)%Z eqn:E; try discriminate;
    intros _; now apply Z.eqb_eq.
Qed.

Lemma fexp64_mono (a b : Z) : (a <= b)%Z -> (fexp64 a <= fexp64 b)%Z.
Proof. unfold fexp64. lia. Qed.

Lemma SFdiv_real (x y : spec_float) :
  SpecFloat.valid_binary prec emax x = true ->
  SpecFloat.valid_binary prec emax y = true ->
  SFfinite x = true -> SFfinite y = true ->
  SF2R y <> 0 ->
  SpecFloat.valid_binary prec emax (SFdiv prec emax x y) = true ->
  Rabs (SF2R x / SF2R y) < bpow 1023 ->
  SFfinite (SFdiv prec emax x y) = true /\
  Rabs (SF2R (SFdiv prec emax x y) - SF2R x / SF2R y)
    <= round_err (SF2R x / SF2R y).
Proof.
  intros Vx Vy Fx Fy Ny Vr Hsmall.
  destruct x as [sx|sx| |sx mx ex], y as [sy|sy| |sy my ey];
    try discriminate; try (cbn [SF2R] in Ny; lra); cbn [SFdiv] in *.
  - split; [reflexivity|]. cbn [SF2R]. unfold Rdiv.
    rewrite Rmult_0_l, Rminus_0_r, Rabs_R0. apply round_err_nonneg.
  - unfold SFdiv_core_binary in *. rewrite fexp_eq in *.
    set (d1 := Zdigits2 (Z.pos mx)) in *. set (d2 := Zdigits2 (Z.pos my)) in *.
    set (e' := Z.min (fexp64 (d1 + ex - (d2 + ey))) (ex - ey)) in *.
    set (sh := (ex - ey - e')%Z) in *.
    assert (Hsh : (0 <= sh)%Z) by (unfold sh, e'; lia).
    set (m' := match sh with
               | 0%Z => Z.pos mx
               | Z.pos _ => Z.shiftl (Z.pos mx) sh
               | Z.neg _ => 0%Z
               end) in *.
    assert (Hm' : m' = (Z.pos mx * 2 ^ sh)%Z).
    { unfold m'. destruct sh as [|p|p]; [cbn; lia | | lia].
      apply Z.shiftl_mul_pow2. lia. }
    pose proof (Z.div_eucl_eq m' (Z.pos my) ltac:(lia)) as Hdiv.
    pose proof (Z.mod_pos_bound m' (Z.pos my) ltac:(lia)) as Hmod.
    unfold Z.modulo in Hmod.
    destruct (Z.div_eucl m' (Z.pos my)) as [q r] eqn:Eqr. cbn [fst snd] in *.
    assert (P2 : (0 < 2 ^ sh)%Z) by (apply Z.pow_pos_nonneg; lia).
    assert (Hq0 : (0 <= q)%Z) by nia.
    set (v := IZR (Z.pos mx) * bpow ex / (IZR (Z.pos my) * bpow ey)).
    assert (Pmy : 0 < IZR (Z.pos my)) by (apply IZR_lt; lia).
    assert (Pmx : 0 < IZR (Z.pos mx)) by (apply IZR_lt; lia).
    pose proof (bpow_pos ex) as Pex. pose proof (bpow_pos ey) as Pey.
    pose proof (bpow_pos e') as Pe'.
    assert (Hquot : SF2R (S754_finite sx mx ex) / SF2R (S754_finite sy my ey)
                    = sgn (xorb sx sy) * v).
    { rewrite !SF2R_finite, sgn_xorb. unfold v.
      set (X := IZR (Z.pos mx) * bpow ex). set (Y := IZR (Z.pos my) * bpow ey).
      assert (Y <> 0) by (unfold Y; nra).
      destruct sx, sy; unfold sgn; field; lra. }
    assert (Hv : v * IZR (Z.pos my) = IZR m' * bpow e').
    { unfold v. rewrite Hm', mult_IZR, <- (bpow_IZR sh Hsh).
      replace ex with (ey + (e' + sh))%Z at 1 by (unfold sh; lia).
      rewrite !bpow_add. field. lra. }
    assert (Hv0 : 0 <= v).
    { unfold v. apply Rlt_le, Rdiv_lt_0_compat; nra. }
    rewrite Hquot in *. rewrite Rabs_sgn_mul, (Rabs_pos_eq v Hv0) in Hsmall.
    assert (Hm'R : IZR m' = IZR (Z.pos my) * IZR q + IZR r)
      by (rewrite <- mult_IZR, <- plus_IZR; f_equal; exact Hdiv).
    assert (Hr : 0 <= IZR r < IZR (Z.pos my))
      by (split; [apply IZR_le | apply IZR_lt]; lia).
    assert (Hbounds : IZR q * bpow e' <= v < (IZR q + 1) * bpow e').
    { split; apply Rmult_le_reg_r with (IZR (Z.pos my)) || apply Rmult_lt_reg_r with (IZR (Z.pos my));
        try exact Pmy; rewrite Hv, Hm'R; nra. }
    assert (HH : (e' <= fexp64 (Zdigits2 q + e'))%Z).
    { apply Z.le_trans with (fexp64 (d1 + ex - (d2 + ey))); [unfold e'; lia|].
      apply fexp64_mono.
      assert (Hdq : (d1 + sh - d2 <= Zdigits2 q)%Z).
      { destruct (Z_le_gt_dec (d1 + sh - d2) 0) as [Hle | Hgt].
        - pose proof (Zdigits2_nonneg q). lia.
        - destruct (Zdigits2_bounds (Z.pos mx) (Pos2Z.is_pos mx)) as [L1 _].
          destruct (Zdigits2_bounds (Z.pos my) (Pos2Z.is_pos my)) as [_ U2].
          fold d1 in L1. fold d2 in U2.
          pose proof (Zdigits2_pos_ge_1 mx). pose proof (Zdigits2_pos_ge_1 my).
          fold d1 in H. fold d2 in H0.
          replace (d1 + sh - d2)%Z with ((d1 + sh - d2 - 1) + 1)%Z by lia.
          apply Zdigits2_ge; [|lia].
          assert (Hq : q = (m' / Z.pos my)%Z).
          { unfold Z.div. now rewrite Eqr. }
          rewrite Hq. apply Z.div_le_lower_bound; [lia|].
          rewrite Hm'.
          apply Z.le_trans with (2 ^ d2 * 2 ^ (d1 + sh - d2 - 1))%Z.
          + apply Z.mul_le_mono_nonneg_r; [apply Z.pow_nonneg|]; lia.
          + rewrite <- Z.pow_add_r by lia.
            replace (d2 + (d1 + sh - d2 - 1))%Z with ((d1 - 1) + sh)%Z by lia.
            rewrite Z.pow_add_r by lia.
            apply Z.mul_le_mono_nonneg_r; lia. }
      unfold sh in Hdq. lia. }
    destruct (binary_round_aux_rounded (xorb sx sy) q e'
                (new_location (Z.pos my) r) v Hq0 HH Hbounds)
      as (a & Fa & Ra & Pa & Ea & _); try assumption.
    + intros Hl. apply new_location_exact in Hl. subst r.
      apply Rmult_eq_reg_r with (IZR (Z.pos my)); [|lra].
      rewrite Hv, Hm'R. ring.
    + split; [exact Fa|]. rewrite Ra, round_err_sgn.
      replace (sgn (xorb sx sy) * a - sgn (xorb sx sy) * v)
        with (sgn (xorb sx sy) * (a - v)) by ring.
      now rewrite Rabs_sgn_mul.
Qed.

End Operations_real.

Section Prim.
Local Open Scope R_scope.

Lemma SFcompare_refl (x : spec_float) :
  x <> S754_nan -> SFcompare x x = Some Eq.
Proof.
  destruct x as [s|s| |s m e]; intros H; try contradiction; cbn.
  - reflexivity.
  - now destruct s.
  - rewrite Z.compare_refl. rewrite Pos.compare_cont_refl. now destruct s.
Qed.

Lemma SFeqb_refl (x : spec_float) : x <> S754_nan -> SFeqb x x = true.
Proof. intros H. unfold SFeqb. now rewrite SFcompare_refl. Qed.

Lemma is_nan_spec (x : float) : is_nan x = true <-> Prim2SF x = S754_nan.
Proof.
  unfold is_nan. rewrite eqb_spec. split.
  - intros H. destruct (Prim2SF x) eqn:E; try reflexivity;
      rewrite SFeqb_refl in H by discriminate; discriminate.
  - intros ->. reflexivity.
Qed.

Lemma is_infinity_spec (x : float) :
  is_infinity x = true <-> exists s, Prim2SF x = S754_infinity s.
Proof.
  unfold is_infinity. rewrite eqb_spec, abs_spec.
  change (Prim2SF infinity) with (S754_infinity false).
  destruct (Prim2SF x) as [s|s| |s m e]; cbn; split;
    try discriminate; try (intros [s' H]; discriminate); eauto.
Qed.

Lemma is_finite_spec (x : float) :
  is_finite x = true <-> SFfinite (Prim2SF x) = true.
Proof.
  unfold is_finite. rewrite negb_true_iff, orb_false_iff.
  split.
  - intros [Hn Hi]. destruct (Prim2SF x) as [s|s| |s m e] eqn:E; try reflexivity.
    + assert (is_infinity x = true) by (apply is_infinity_spec; eauto). congruence.
    + assert (is_nan x = true) by (now apply is_nan_spec). congruence.
  - intros H. split.
    + destruct (is_nan x) eqn:E; [|reflexivity].
      apply is_nan_spec in E. rewrite E in H. discriminate.
    + destruct (is_infinity x) eqn:E; [|reflexivity].
      apply is_infinity_spec in E. destruct E as [s E]. rewrite E in H. discriminate.
Qed.

Lemma eqb_zero_spec (x : float) :
  is_finite x = true -> ((x =? 0)%float = true <-> B2R x = 0).
Proof.
  intros Hf. apply is_finite_spec in Hf. unfold B2R. rewrite eqb_spec.
  change (Prim2SF 0%float) with (S754_zero false).
  destruct (Prim2SF x) as [s|s| |s m e]; try discriminate.
  - split; reflexivity.
  - rewrite SF2R_finite. split.
    + unfold SFeqb. cbn. destruct s; discriminate.
    + intros H. exfalso. pose proof (bpow_pos e).
      assert (0 < IZR (Z.pos m)) by (apply IZR_lt; lia).
      destruct s; unfold sgn in H; nra.
Qed.

Theorem mul_real (x y : float) :
  is_finite x = true -> is_finite y = true ->
  Rabs (B2R x * B2R y) < bpow 1023 ->
  is_finite (x * y) = true /\
  Rabs (B2R (x * y) - B2R x * B2R y) <= round_err (B2R x * B2R y).
Proof.
  intros Fx Fy H. rewrite is_finite_spec in *. unfold B2R in *.
  rewrite mul_spec. apply SFmul_real; try assumption; try apply Prim2SF_valid.
  fold SF64mul. rewrite <- mul_spec. apply Prim2SF_valid.
Qed.

Theorem add_real (x y : float) :
  is_finite x = true -> is_finite y = true ->
  Rabs (B2R x + B2R y) < bpow 1023 ->
  is_finite (x + y) = true /\
  Rabs (B2R (x + y) - (B2R x + B2R y)) <= round_err (B2R x + B2R y).
Proof.
  intros Fx Fy H. rewrite is_finite_spec in *. unfold B2R in *.
  rewrite add_spec. apply SFadd_real; try assumption.
  fold SF64add. rewrite <- add_spec. apply Prim2SF_valid.
Qed.

Theorem sub_real (x y : float) :
  is_finite x = true -> is_finite y = true ->
  Rabs (B2R x - B2R y) < bpow 1023 ->
  is_finite (x - y) = true /\
  Rabs (B2R (x - y) - (B2R x - B2R y)) <= round_err (B2R x - B2R y).
Proof.
  intros Fx Fy H. rewrite is_finite_spec in *. unfold B2R in *.
  rewrite sub_spec. apply SFsub_real; try assumption.
  fold SF64sub. rewrite <- sub_spec. apply Prim2SF_valid.
Qed.

Theorem div_real (x y : float) :
  is_finite x = true -> is_finite y = true -> B2R y <> 0 ->
  Rabs (B2R x / B2R y) < bpow 1023 ->
  is_finite (x / y) = true /\
  Rabs (B2R (x / y) - B2R x / B2R y) <= round_err (B2R x / B2R y).
Proof.
  intros Fx Fy Ny H. rewrite is_finite_spec in *. unfold B2R in *.
  rewrite div_spec. apply SFdiv_real; try assumption; try apply Prim2SF_valid.
  fold SF64div. rewrite <- div_spec. apply Prim2SF_valid.
Qed.

End Prim.

Section Nearby_float.
Local Open Scope R_scope.

Lemma binade_exists (v : R) (n : nat) :
  bpow (-1022) <= v < bpow (-1022 + Z.of_nat n) ->
  exists k : Z, (-1022 <= k < -1022 + Z.of_nat n)%Z /\ bpow k <= v < bpow (k + 1).
Proof.
  induction n as [|n IH]; intros [Hl Hu].
  - rewrite Z.add_0_r in Hu. lra.
  - destruct (Rlt_le_dec v (bpow (-1022 + Z.of_nat n))) as [Hlt | Hge].
    + destruct (IH (conj Hl Hlt)) as (k & Hk & Hb). exists k. split; [lia | exact Hb].
    + exists (-1022 + Z.of_nat n)%Z. split; [lia|]. split; [exact Hge|].
      replace (-1022 + Z.of_nat n + 1)%Z with (-1022 + Z.of_nat (S n))%Z by lia.
      exact Hu.
Qed.

Lemma bpow_opp_mul (e : Z) : bpow (- e) * bpow e = 1.
Proof. rewrite <- bpow_add. replace (- e + e)%Z with 0%Z by lia. apply bpow_0. Qed.

(** Every real number in the normal range has a float within one unit
    in the last place. *)
Lemma float_near (v : R) :
  bpow (-1022) <= v < bpow 1023 ->
  exists r : float,
    is_finite r = true /\ Rabs (B2R r - v) <= bpow (-52) * v.
Proof.
  intros Hv.
  destruct (binade_exists v 2045) as (k & Hk & Hb).
  { change (-1022 + Z.of_nat 2045)%Z with 1023%Z. exact Hv. }
  set (e := (k - 52)%Z).
  set (w := v * bpow (- e)).
  pose proof (bpow_pos e) as Pe. pose proof (bpow_pos (- e)) as Pme.
  pose proof (bpow_opp_mul e) as Pinv.
  assert (Hw : IZR (2 ^ 52) <= w < IZR (2 ^ 53)).
  { rewrite <- !bpow_IZR by lia. unfold w.
    assert (E1 : bpow 52 = bpow k * bpow (- e))
      by (rewrite <- bpow_add; f_equal; unfold e; lia).
    assert (E2 : bpow 53 = bpow (k + 1) * bpow (- e))
      by (rewrite <- bpow_add; f_equal; unfold e; lia).
    rewrite E1, E2. split; nra. }
  set (m := Int_part w).
  destruct (base_Int_part w) as [M1 M2]. fold m in M1, M2.
  assert (Hm : (2 ^ 52 <= m < 2 ^ 53)%Z).
  { split.
    - assert (IZR (2 ^ 52) < IZR (m + 1)) by (rewrite plus_IZR; lra).
      apply lt_IZR in H. lia.
    - apply lt_IZR. lra. }
  assert (Hd : Zdigits2 m = 53%Z).
  { apply Z.le_antisymm.
    - apply Zdigits2_le; lia.
    - apply (Zdigits2_ge m 52); lia. }
  destruct m as [|p|p] eqn:Em; try lia.
  set (sf := S754_finite false p e).
  assert (Vsf : SpecFloat.valid_binary prec emax sf = true).
  { unfold sf. cbn [SpecFloat.valid_binary]. unfold bounded, canonical_mantissa.
    cbn [Zdigits2] in Hd. rewrite Hd.
    apply andb_true_iff. split; [apply Z.eqb_eq | apply Z.leb_le].
    - change (fexp prec emax (53 + e)) with (fexp64 (53 + e)).
      unfold fexp64, e. lia.
    - change (emax - prec)%Z with 971%Z. unfold e. lia. }
  exists (SF2Prim sf).
  assert (Hsf : Prim2SF (SF2Prim sf) = sf) by (apply Prim2SF_SF2Prim; exact Vsf).
  split.
  - apply is_finite_spec. rewrite Hsf. reflexivity.
  - unfold B2R. rewrite Hsf. unfold sf. rewrite SF2R_finite. unfold sgn.
    rewrite Rmult_1_l.
    assert (Hvw : v = w * bpow e) by (unfold w; rewrite Rmult_assoc, Pinv; ring).
    assert (E52 : bpow e = bpow (-52) * bpow k)
      by (rewrite <- bpow_add; f_equal; unfold e; lia).
    pose proof (bpow_pos (-52)).
    apply Rabs_le. rewrite Hvw at 1 2. split; nra.
Qed.

End Nearby_float.

(** ** Subtraction of binary64 values

    [x - y] and [y - x] are opposite, and [x - x] is zero, unless the
    results are NaN. *)

Lemma SFopp_involutive (x : spec_float) : SFopp (SFopp x) = x.
Proof. destruct x as [s|s| |s m e]; cbn; now rewrite ?negb_involutive. Qed.

Lemma binary_round_aux_opp (s : bool) (m e : Z) (l : location) :
  binary_round_aux prec emax (negb s) m e l
  = SFopp (binary_round_aux prec emax s m e l).
Proof.
  unfold binary_round_aux.
  destruct (shr_fexp prec emax m e l) as [mrs' e'].
  destruct (shr_fexp prec emax _ e' loc_Exact) as [mrs'' e''].
  destruct (shr_m mrs''); [reflexivity| |reflexivity].
  destruct (e'' <=? emax - prec)%Z; reflexivity.
Qed.

Lemma binary_normalize_opp (m e : Z) :
  m <> 0%Z ->
  binary_normalize prec emax (- m) e false
  = SFopp (binary_normalize prec emax m e false).
Proof.
  intros Hm. destruct m as [|p|p]; [contradiction| |]; cbn [Z.opp binary_normalize];
    unfold binary_round;
    destruct (shl_align p e _) as [mz ez].
  - apply (binary_round_aux_opp false).
  - rewrite (binary_round_aux_opp false). now rewrite SFopp_involutive.
Qed.

(** [x - y] and [y - x] are opposite, up to the sign of a zero. *)
Lemma SFsub_antisym (x y : spec_float) :
  SFsub prec emax x y = S754_nan /\ SFsub prec emax y x = S754_nan \/
  SFeqb (SFsub prec emax x y) (SFopp (SFsub prec emax y x)) = true.
Proof.
  destruct x as [sx|sx| |sx mx ex], y as [sy|sy| |sy my ey];
    try (left; split; reflexivity);
    try (right; destruct sx, sy; reflexivity);
    try (destruct sx, sy; (left; split; reflexivity) || (right; reflexivity)).
  - right. unfold SFeqb. cbn. rewrite Z.compare_refl, Pos.compare_cont_refl.
    now destruct sy.
  - right. unfold SFeqb. cbn. rewrite Z.compare_refl, Pos.compare_cont_refl.
    now destruct sx.
  - cbn [SFsub].
    set (ez := Z.min ex ey). rewrite (Z.min_comm ey ex). fold ez.
    set (zx := cond_Zopp sx (Z.pos (fst (shl_align mx ex ez)))).
    set (zy := cond_Zopp sy (Z.pos (fst (shl_align my ey ez)))).
    destruct (Z.eq_dec (zx - zy) 0) as [E | N].
    + right. rewrite E. replace (zy - zx)%Z with 0%Z by lia. reflexivity.
    + replace (zy - zx)%Z with (- (zx - zy))%Z by lia.
      rewrite (binary_normalize_opp _ _ N), SFopp_involutive.
      destruct (binary_normalize prec emax (zx - zy) ez false) eqn:Er;
        try (right; apply SFeqb_refl; discriminate).
      left. split; reflexivity.
Qed.

(** [x - x] is [+0] unless it is not a number. *)
Lemma SFsub_diag (x : spec_float) :
  SFsub prec emax x x = S754_nan \/ SFsub prec emax x x = S754_zero false.
Proof.
  destruct x as [s|s| |s m e]; cbn [SFsub].
  - right. now destruct s.
  - left. now destruct s.
  - now left.
  - right. now rewrite Z.sub_diag.
Qed.

Section Subtraction.
Local Open Scope float_scope.

Lemma sub_diag (x : float) : is_nan (x - x) = true \/ x - x = 0.
Proof.
  destruct (SFsub_diag (Prim2SF x)) as [H | H]; fold SF64sub in H;
    rewrite <- sub_spec in H.
  - left. now apply is_nan_spec.
  - right. apply Prim2SF_inj. rewrite H. reflexivity.
Qed.

Lemma sub_antisym (x y : float) :
  is_nan (x - y) = true /\ is_nan (y - x) = true \/ (x - y =? - (y - x)) = true.
Proof.
  destruct (SFsub_antisym (Prim2SF x) (Prim2SF y)) as [[H1 H2] | H];
    fold SF64sub in *.
  - left. rewrite <- sub_spec in H1, H2. split; now apply is_nan_spec.
  - right. rewrite eqb_spec, opp_spec, !sub_spec. exact H.
Qed.

End Subtraction.

(** ** The reference exponential conforms *)

Section Reference.
Import ExpBound.
Local Open Scope R_scope.

Lemma exp_709_lt : exp 709 < bpow 1023.
Proof.
  replace 709 with (IZR 709 / IZR 1) by lra.
  eapply Rle_lt_trans; [apply (exp_upper_sound 709 1 24); lia|].
  apply Rle_lt_trans with (IZR (2 ^ 1023 - 1) / IZR 1).
  - apply fixed_le; [lia | vm_compute; discriminate].
  - rewrite (bpow_IZR 1023) by lia. unfold Rdiv. rewrite Rinv_1, Rmult_1_r.
    apply IZR_lt. lia.
Qed.

Lemma exp_708_le : exp 708 <= bpow 1022.
Proof.
  replace 708 with (IZR 708 / IZR 1) by lra.
  eapply Rle_trans; [apply (exp_upper_sound 708 1 24); lia|].
  rewrite (bpow_IZR 1022) by lia.
  replace (IZR (2 ^ 1022)) with (IZR (2 ^ 1022) / IZR 1) by (unfold Rdiv; rewrite Rinv_1; ring).
  apply fixed_le; [lia | vm_compute; discriminate].
Qed.

Lemma exp_in_normal_range (x : R) :
  -708 <= x <= 709 -> bpow (-1022) <= exp x < bpow 1023.
Proof.
  intros [Hl Hu]. split.
  - apply Rle_trans with (exp (-708)).
    + replace (-708) with (- (708)) by lra.
      rewrite exp_Ropp. pose proof exp_708_le. pose proof (exp_pos 708).
      pose proof (bpow_opp_mul 1022) as E.
      change (bpow (-1022) * bpow 1022 = 1) in E.
      pose proof (bpow_pos 1022). pose proof (bpow_pos (-1022)).
      apply Rmult_le_reg_r with (exp 708); [assumption|].
      rewrite Rinv_l by lra. nra.
    + destruct Hl as [Hl | <-]; [left; now apply exp_increasing | right; reflexivity].
  - apply Rle_lt_trans with (exp 709); [|exact exp_709_lt].
    destruct Hu as [Hu | ->]; [left; now apply exp_increasing | right; reflexivity].
Qed.

Lemma is_finite_not_nan (x : float) : is_finite x = true -> is_nan x = false.
Proof.
  unfold is_finite. rewrite negb_true_iff, orb_false_iff. now intros [H _].
Qed.

Lemma is_finite_not_infinity (x : float) :
  is_finite x = true -> is_infinity x = false.
Proof.
  unfold is_finite. rewrite negb_true_iff, orb_false_iff. now intros [_ H].
Qed.

Lemma reference_exp_conforms : Libm.exp_conforms reference_exp.
Proof.
  constructor.
  - intros x Hn. unfold reference_exp. rewrite Hn. reflexivity.
  - reflexivity.
  - reflexivity.
  - intros x Hf Hx. unfold reference_exp.
    rewrite (is_finite_not_nan x Hf), (is_finite_not_infinity x Hf).
    destruct (Rle_dec 710 (B2R x)); [reflexivity | contradiction].
  - intros x Hf Hx. unfold reference_exp.
    rewrite (is_finite_not_nan x Hf), (is_finite_not_infinity x Hf).
    destruct (Rle_dec 710 (B2R x)); [lra|].
    destruct (Rle_dec (B2R x) (-746)); [reflexivity | contradiction].
  - intros x Hf Hx. unfold reference_exp.
    rewrite (is_finite_not_nan x Hf), (is_finite_not_infinity x Hf).
    destruct (Rle_dec 710 (B2R x)); [lra|].
    destruct (Rle_dec (B2R x) (-746)); [lra|].
    apply epsilon_spec.
    destruct (float_near (exp (B2R x)) (exp_in_normal_range _ Hx)) as (r & Fr & Er).
    exists r. split; [exact Fr|].
    eapply Rle_trans; [exact Er|].
    pose proof (exp_pos (B2R x)).
    assert (bpow (-52) <= bpow (-51)) by (apply bpow_le; lia). nra.
Qed.

End Reference.

(** ** The Magnus pressure on binary64

    For a temperature in [-100, 100] the computed exponent is within
    [1e-13] of the exponent over the reals, and the computed pressure
    within the relative distance [1e-12] of the pressure over the
    reals. *)

(** Evaluates the integer powers under [IZR] in the goal. *)
Ltac eval_pow :=
  repeat match goal with
         | |- context [IZR (?a ^ ?b)] =>
             let v := eval vm_compute in (a ^ b)%Z in change (a ^ b)%Z with v
         end.

Section Literals.
Local Open Scope R_scope.

Lemma bpow_neg_IZR (k : Z) : (0 <= k)%Z -> bpow (- k) = / IZR (2 ^ k).
Proof.
  intros Hk. pose proof (bpow_opp_mul k) as E. rewrite (bpow_IZR k Hk) in E.
  assert (0 < IZR (2 ^ k)) by (apply IZR_lt, Z.pow_pos_nonneg; lia).
  apply Rmult_eq_reg_r with (IZR (2 ^ k)); [|lra].
  rewrite E, Rinv_l by lra. reflexivity.
Qed.

Lemma B2R_finite (x : float) (s : bool) (m : positive) (e : Z) :
  Prim2SF x = S754_finite s m e ->
  is_finite x = true /\ B2R x = sgn s * (IZR (Z.pos m) * bpow e).
Proof.
  intros H. split.
  - apply is_finite_spec. now rewrite H.
  - unfold B2R. rewrite H. apply SF2R_finite.
Qed.

Lemma bpow_Zneg (p : positive) : bpow (Z.neg p) = / IZR (2 ^ Z.pos p).
Proof. change (Z.neg p) with (- Z.pos p)%Z. apply bpow_neg_IZR. lia. Qed.

Lemma B2R_a : is_finite 17.625%float = true /\ B2R 17.625%float = MagnusReal.A.
Proof.
  destruct (B2R_finite 17.625%float false 4960996464525312 (-48) eq_refl) as [F V].
  split; [exact F|]. rewrite V. unfold sgn, MagnusReal.A.
  rewrite bpow_Zneg. eval_pow. lra.
Qed.

Lemma B2R_b :
  is_finite 0x1.e6147ae147ae1p+7%float = true /\
  B2R 0x1.e6147ae147ae1p+7%float = MagnusReal.B.
Proof.
  destruct (B2R_finite 0x1.e6147ae147ae1p+7%float false 8551209792469729 (-45)
              eq_refl) as [F V].
  split; [exact F|]. rewrite V. unfold sgn, MagnusReal.B.
  rewrite bpow_Zneg. eval_pow. lra.
Qed.

Lemma B2R_c :
  is_finite 0x1.870068db8bac7p+2%float = true /\
  B2R 0x1.870068db8bac7p+2%float = MagnusReal.C.
Proof.
  destruct (B2R_finite 0x1.870068db8bac7p+2%float false 6878572890864327 (-50)
              eq_refl) as [F V].
  split; [exact F|]. rewrite V. unfold sgn, MagnusReal.C.
  rewrite bpow_Zneg. eval_pow. lra.
Qed.

Lemma B_bounds : 243.0399999999 <= MagnusReal.B <= 243.0400000001.
Proof. unfold MagnusReal.B. eval_pow. lra. Qed.

Lemma C_bounds : 6.1093999999 <= MagnusReal.C <= 6.1094000001.
Proof. unfold MagnusReal.C. eval_pow. lra. Qed.

(** Coarse numeric bounds on the unit roundoff and on the subnormal
    threshold. *)
Lemma u_small : bpow (-50) <= 1 / 10 ^ 15.
Proof. rewrite bpow_Zneg. eval_pow. lra. Qed.

Lemma eta_small : bpow (-1073) <= 1 / 10 ^ 300.
Proof.
  rewrite bpow_Zneg.
  apply Rle_trans with (/ IZR (10 ^ 300)).
  - apply Rinv_le_contravar; [apply IZR_lt; reflexivity|].
    apply IZR_le. vm_compute. discriminate.
  - assert (E : 10 ^ 300 = IZR (10 ^ 300)) by (rewrite pow_IZR; reflexivity).
    rewrite E. right. unfold Rdiv. now rewrite Rmult_1_l.
Qed.

Lemma round_err_le (v V : R) :
  Rabs v <= V -> round_err v <= V / 10 ^ 15 + 1 / 10 ^ 300.
Proof.
  intros H. unfold round_err. pose proof u_small. pose proof eta_small.
  pose proof (bpow_pos (-50)). pose proof (Rabs_pos v).
  assert (0 < 10 ^ 15) by (apply pow_lt; lra).
  unfold Rdiv in *. rewrite Rmult_1_l in H0.
  apply Rplus_le_compat; [|lra].
  rewrite Rmult_comm. apply Rmult_le_compat; lra.
Qed.

End Literals.

Section Real_helpers.
Local Open Scope R_scope.

Lemma bpow_1023_big : 10 ^ 9 <= bpow 1023.
Proof.
  rewrite (bpow_IZR 1023) by lia.
  assert (E : 10 ^ 9 = IZR (10 ^ 9)) by (rewrite pow_IZR; reflexivity).
  rewrite E. apply IZR_le. vm_compute. discriminate.
Qed.

Lemma exp_le_pow3 (n : nat) : exp (INR n) <= 3 ^ n.
Proof.
  induction n as [|n IH].
  - cbn. rewrite exp_0. lra.
  - rewrite S_INR, exp_plus. cbn [pow].
    pose proof exp_le_3. pose proof (exp_pos (INR n)). pose proof (exp_pos 1).
    nra.
Qed.

Lemma exp_upper_6 (x : R) : x <= 6 -> exp x <= 729.
Proof.
  intros H. apply Rle_trans with (exp 6).
  - destruct H as [H | ->]; [left; now apply exp_increasing | right; reflexivity].
  - pose proof (exp_le_pow3 6) as E. cbn [INR] in E.
    replace (1 + 1 + 1 + 1 + 1 + 1) with 6 in E by lra. lra.
Qed.

Lemma exp_lower_13 (x : R) : -13 <= x -> / 1594323 <= exp x.
Proof.
  intros H. apply Rle_trans with (exp (- (13))).
  - rewrite exp_Ropp. apply Rinv_le_contravar; [apply exp_pos|].
    pose proof (exp_le_pow3 13) as E. cbn [INR] in E.
    replace (1 + 1 + 1 + 1 + 1 + 1 + 1 + 1 + 1 + 1 + 1 + 1 + 1) with 13 in E by lra.
    lra.
  - replace (- (13)) with (-13) by lra.
    destruct H as [H | <-]; [left; now apply exp_increasing | right; reflexivity].
Qed.

(** The exponential of a small perturbation. *)
Lemma exp_small (d e : R) :
  Rabs d <= e -> e <= / 2 -> 1 - e <= exp d <= 1 + 2 * e.
Proof.
  intros Hd He. apply Rabs_le_inv in Hd. split.
  - pose proof (exp_ineq1_le d). lra.
  - assert (Hd1 : d < 1) by lra.
    pose proof (exp_le_inv d Hd1) as H.
    apply Rle_trans with (/ (1 - d)); [exact H|].
    apply Rle_trans with (/ (1 - e)).
    + apply Rinv_le_contravar; lra.
    + apply Rmult_le_reg_r with (1 - e); [lra|].
      rewrite Rinv_l by lra. nra.
Qed.

(** A quotient of perturbed terms. *)
Lemma div_perturb (P S p s e1 e2 : R) :
  143 <= S -> Rabs P <= 13 * S ->
  Rabs (p - P) <= e1 -> Rabs (s - S) <= e2 -> e2 <= 1 ->
  Rabs (p / s - P / S) <= (e1 + 13 * e2) / 142.
Proof.
  intros HS HP Hp Hs He2.
  apply Rabs_le_inv in HP. apply Rabs_le_inv in Hp. apply Rabs_le_inv in Hs.
  assert (Hs142 : 142 <= s) by lra.
  assert (He1 : 0 <= e1) by lra. assert (He20 : 0 <= e2) by lra.
  set (K := (e1 + 13 * e2) / 142).
  assert (HK : 142 * K = e1 + 13 * e2) by (unfold K; field).
  assert (HK0 : 0 <= K) by (unfold K; apply Rmult_le_pos; lra).
  replace (p / s - P / S) with (((p - P) * S - P * (s - S)) / (s * S))
    by (field; lra).
  assert (Hden : 0 < s * S) by nra.
  apply Rabs_le. split.
  - apply Rmult_le_reg_r with (s * S); [exact Hden|].
    unfold Rdiv. rewrite Rmult_assoc, Rinv_l by lra. rewrite Rmult_1_r.
    assert (K * (142 * S) <= K * (s * S)) by (apply Rmult_le_compat_l; nra).
    nra.
  - apply Rmult_le_reg_r with (s * S); [exact Hden|].
    unfold Rdiv. rewrite Rmult_assoc, Rinv_l by lra. rewrite Rmult_1_r.
    assert (K * (142 * S) <= K * (s * S)) by (apply Rmult_le_compat_l; nra).
    nra.
Qed.

End Real_helpers.

Section Magnus_binary64.
Local Open Scope R_scope.
Import MagnusReal.

Lemma exponent_range (T : R) :
  -100 <= T <= 100 -> -13 <= exponent T <= 6.
Proof.
  intros HT. pose proof B_bounds as HB. unfold exponent, A.
  assert (HS : 0 < B + T) by lra.
  split.
  - apply Rmult_le_reg_r with (B + T); [exact HS|].
    unfold Rdiv. rewrite Rmult_assoc, Rinv_l by lra. lra.
  - apply Rmult_le_reg_r with (B + T); [exact HS|].
    unfold Rdiv. rewrite Rmult_assoc, Rinv_l by lra. lra.
Qed.

(** The computed exponent [(a * t) / (b + t)] against the real one. *)
Lemma exponent_binary64 (t : float) :
  is_finite t = true -> -100 <= B2R t <= 100 ->
  exists q : float,
    Binary64.float_truediv (17.625 * t) (0x1.e6147ae147ae1p+7 + t) = Ret q /\
    is_finite q = true /\
    Rabs (B2R q - exponent (B2R t)) <= 1 / 10 ^ 13.
Proof.
  intros Ft HT. set (T := B2R t) in *.
  destruct B2R_a as [Fa Va]. destruct B2R_b as [Fb Vb].
  pose proof B_bounds as HB. pose proof bpow_1023_big as Hbig.
  assert (H9 : 10 ^ 9 = 1000000000) by lra.
  (* the product *)
  assert (HP : Rabs (A * T) <= 1762.5) by (unfold A; apply Rabs_le; lra).
  destruct (mul_real 17.625 t Fa Ft) as [Fp Ep].
  { rewrite Va. fold T. lra. }
  rewrite Va in Ep. fold T in Ep.
  pose proof (round_err_le _ _ HP) as Rp.
  set (p := (17.625 * t)%float) in *.
  (* the sum *)
  assert (HS : Rabs (B + T) <= 343.05) by (apply Rabs_le; lra).
  destruct (add_real 0x1.e6147ae147ae1p+7 t Fb Ft) as [Fs Es].
  { rewrite Vb. fold T. lra. }
  rewrite Vb in Es. fold T in Es.
  pose proof (round_err_le _ _ HS) as Rs.
  set (s := (0x1.e6147ae147ae1p+7 + t)%float) in *.
  assert (E15 : 10 ^ 15 = 1000000000000000) by lra.
  assert (Small : 0 <= 1 / 10 ^ 300 <= 1 / 10 ^ 15).
  { split.
    - apply Rlt_le, Rdiv_lt_0_compat; [lra | apply pow_lt; lra].
    - unfold Rdiv. rewrite !Rmult_1_l. apply Rinv_le_contravar; [apply pow_lt; lra|].
      apply Rle_pow; [lra | lia]. }
  set (h := 1 / 10 ^ 300) in *.
  assert (Hp' : Rabs (B2R p - A * T) <= 1762.5 / 10 ^ 15 + h) by lra.
  assert (Hs' : Rabs (B2R s - (B + T)) <= 343.05 / 10 ^ 15 + h) by lra.
  rewrite E15 in *.
  assert (Hs142 : 142 <= B2R s) by (apply Rabs_le_inv in Hs'; lra).
  (* the zero test *)
  assert (Hz : (s =? 0)%float = false).
  { destruct (s =? 0)%float eqn:E; [|reflexivity].
    apply (eqb_zero_spec s Fs) in E. lra. }
  (* the quotient *)
  assert (Hq : Rabs (B2R p / B2R s - exponent T) <= 5 / 10 ^ 14).
  { unfold exponent. eapply Rle_trans.
    - apply (div_perturb (A * T) (B + T) (B2R p) (B2R s)
               (1762.5 / 1000000000000000 + h) (343.05 / 1000000000000000 + h));
        [lra | | exact Hp' | exact Hs' | lra].
      unfold A. apply Rabs_le. lra.
    - lra. }
  pose proof (exponent_range T HT) as HQ.
  assert (Hq13 : Rabs (B2R p / B2R s) <= 14).
  { apply Rabs_le_inv in Hq. apply Rabs_le. lra. }
  destruct (div_real p s Fp Fs) as [Fq Eq]; [lra | lra |].
  pose proof (round_err_le _ _ Hq13) as Rq. rewrite E15 in Rq.
  exists (p / s)%float. split; [|split].
  - unfold Binary64.float_truediv. fold p s. now rewrite Hz.
  - exact Fq.
  - apply Rabs_le_inv in Hq. apply Rabs_le_inv in Eq. apply Rabs_le. lra.
Qed.

Lemma u51_small : bpow (-51) <= 1 / 10 ^ 15.
Proof. rewrite bpow_Zneg. eval_pow. lra. Qed.

Lemma pressure_range (T : R) :
  -100 <= T <= 100 -> 1 / 10 ^ 6 <= pressure T <= 5000.
Proof.
  intros HT. destruct (exponent_range T HT) as [Hl Hu].
  pose proof (exp_lower_13 _ Hl). pose proof (exp_upper_6 _ Hu).
  pose proof C_bounds. unfold pressure. pose proof (exp_pos (exponent T)).
  split; nra.
Qed.

(** The computed Magnus pressure [6.1094 * math.exp((a * t) / (b + t))]
    against the real one, for a conforming [exp]. *)
Lemma pressure_binary64 (libm_exp : float -> float) (t : float) :
  Libm.exp_conforms libm_exp ->
  is_finite t = true -> -100 <= B2R t <= 100 ->
  exists q E : float,
    Binary64.float_truediv (17.625 * t) (0x1.e6147ae147ae1p+7 + t) = Ret q /\
    Binary64.math_exp libm_exp q = Ret E /\
    is_finite (0x1.870068db8bac7p+2 * E) = true /\
    Rabs (B2R (0x1.870068db8bac7p+2 * E) - pressure (B2R t))
      <= pressure (B2R t) / 10 ^ 12.
Proof.
  intros Hlibm Ft HT.
  destruct (exponent_binary64 t Ft HT) as (q & Hq & Fq & Eq).
  set (T := B2R t) in *.
  pose proof (exponent_range T HT) as HQ.
  pose proof (pressure_range T HT) as HPr.
  assert (E13 : 10 ^ 13 = 10000000000000) by lra.
  assert (E15 : 10 ^ 15 = 1000000000000000) by lra.
  assert (E12 : 10 ^ 12 = 1000000000000) by lra.
  assert (E6 : 10 ^ 6 = 1000000) by lra.
  rewrite E13 in Eq.
  assert (Hrange : -708 <= B2R q <= 709) by (apply Rabs_le_inv in Eq; lra).
  destruct (Libm.exp_accurate _ Hlibm q Fq Hrange) as [FE EE].
  set (E := libm_exp q) in *.
  exists q, E. split; [exact Hq|]. split.
  { unfold Binary64.math_exp. fold E.
    rewrite (is_finite_not_nan E FE), (is_finite_not_infinity E FE). reflexivity. }
  (* the exponential of the computed exponent *)
  set (X := exp (exponent T)) in *.
  assert (PX : 0 < X) by apply exp_pos.
  set (Y := exp (B2R q)) in *.
  assert (HY : X * (1 - 1 / 10000000000000) <= Y <= X * (1 + 2 / 10000000000000)).
  { assert (EY : Y = X * exp (B2R q - exponent T)).
    { unfold Y, X. rewrite <- exp_plus. f_equal. ring. }
    destruct (exp_small (B2R q - exponent T) (1 / 10000000000000) Eq ltac:(lra))
      as [D1 D2].
    rewrite EY. split; nra. }
  assert (PY : 0 < Y) by apply exp_pos.
  (* the result of exp *)
  assert (HZ : Y * (1 - 1 / 1000000000000000) <= B2R E
               <= Y * (1 + 1 / 1000000000000000)).
  { pose proof u51_small as U. rewrite E15 in U. pose proof (bpow_pos (-51)).
    assert (bpow (-51) * Y <= 1 / 1000000000000000 * Y)
      by (apply Rmult_le_compat_r; lra).
    apply Rabs_le_inv in EE. lra. }
  assert (PZ : 0 < B2R E) by nra.
  (* the product by 6.1094 *)
  destruct B2R_c as [Fc Vc]. pose proof C_bounds as HC.
  pose proof bpow_1023_big as Hbig.
  assert (H9 : 10 ^ 9 = 1000000000) by lra.
  pose proof (exp_upper_6 _ (proj2 HQ)) as HX6. fold X in HX6.
  assert (HCZ : Rabs (C * B2R E) <= C * B2R E)
    by (rewrite Rabs_pos_eq by nra; lra).
  destruct (mul_real 0x1.870068db8bac7p+2 E Fc FE) as [Fe Ee].
  { rewrite Vc. rewrite Rabs_pos_eq by nra.
    assert (B2R E <= 1000) by nra.
    apply Rle_lt_trans with 10000; [nra | lra]. }
  rewrite Vc in Ee. pose proof (round_err_le _ _ HCZ) as Re. rewrite E15 in Re.
  split; [exact Fe|].
  set (W := B2R (0x1.870068db8bac7p+2 * E)) in *.
  assert (Hh : 0 <= 1 / 10 ^ 300 <= 1 / 10 ^ 19).
  { split.
    - apply Rlt_le, Rdiv_lt_0_compat; [lra | apply pow_lt; lra].
    - unfold Rdiv. rewrite !Rmult_1_l. apply Rinv_le_contravar; [apply pow_lt; lra|].
      apply Rle_pow; [lra | lia]. }
  set (h := 1 / 10 ^ 300) in *.
  assert (E19 : 10 ^ 19 = 10000000000000000000) by lra.
  rewrite E19 in Hh. rewrite E12. rewrite E6 in HPr.
  unfold pressure in *. fold T X in HPr |- *.
  apply Rabs_le_inv in Ee.
  assert (HCZ1 : C * X * (1 - 2 / 10000000000000) <= C * B2R E
                 <= C * X * (1 + 3 / 10000000000000)).
  { split.
    - apply Rle_trans with (C * (X * (1 - 2 / 10000000000000))); [lra|].
      apply Rmult_le_compat_l; [lra|]. nra.
    - apply Rle_trans with (C * (X * (1 + 3 / 10000000000000))); [|lra].
      apply Rmult_le_compat_l; [lra|]. nra. }
  assert (PCX : 0 < C * X) by nra.
  apply Rabs_le. split; nra.
Qed.

End Magnus_binary64.

(** The real value of a concrete float, from its mantissa and exponent. *)
Ltac float_value x F V :=
  let v := eval vm_compute in (Prim2SF x) in
  match v with
  | S754_finite ?s ?m ?e =>
      destruct (B2R_finite x s m e eq_refl) as [F V];
      unfold sgn in V; rewrite bpow_Zneg in V;
      match type of V with
      | context [IZR (?a ^ ?b)] =>
          let w := eval vm_compute in (a ^ b)%Z in
          change (a ^ b)%Z with w in V
      end
  end.

Section Concrete_floats.
Local Open Scope float_scope.

Lemma B2R_10 : is_finite 10 = true /\ B2R 10 = 10%R.
Proof. float_value 10 F V. split; [exact F|]. rewrite V. lra. Qed.

Lemma B2R_15 : is_finite 15 = true /\ B2R 15 = 15%R.
Proof. float_value 15 F V. split; [exact F|]. rewrite V. lra. Qed.

Lemma B2R_20 : is_finite 20 = true /\ B2R 20 = 20%R.
Proof. float_value 20 F V. split; [exact F|]. rewrite V. lra. Qed.

Lemma B2R_25 : is_finite 25 = true /\ B2R 25 = 25%R.
Proof. float_value 25 F V. split; [exact F|]. rewrite V. lra. Qed.

Lemma B2R_37 : is_finite 37 = true /\ B2R 37 = 37%R.
Proof. float_value 37 F V. split; [exact F|]. rewrite V. lra. Qed.

Lemma B2R_212 : is_finite 212 = true /\ B2R 212 = 212%R.
Proof. float_value 212 F V. split; [exact F|]. rewrite V. lra. Qed.

End Concrete_floats.

(** ** Sign and monotonicity of the deficit on binary64 *)

Section Vpd_binary64.
Local Open Scope R_scope.
Import MagnusReal.

Lemma calculate_vpd_halves (libm_exp : float -> float) (t d : float) :
  Binary64.calculate_vpd libm_exp t d =
  (e_s <- magnus_half libm_exp t ;;
   e_a <- magnus_half libm_exp d ;;
   Ret (e_s - e_a)%float)%py.
Proof.
  unfold Binary64.calculate_vpd, magnus_half.
  destruct (Binary64.float_truediv _ _) as [q|e]; [|reflexivity]. cbn [bind].
  destruct (Binary64.math_exp libm_exp q) as [E|e]; [|reflexivity]. cbn [bind].
  destruct (Binary64.float_truediv _ _) as [q'|e]; [|reflexivity]. cbn [bind].
  destruct (Binary64.math_exp libm_exp q') as [E'|e]; reflexivity.
Qed.

Lemma magnus_half_real (libm_exp : float -> float) (x : float) :
  Libm.exp_conforms libm_exp ->
  is_finite x = true -> -100 <= B2R x <= 100 ->
  exists e : float,
    magnus_half libm_exp x = Ret e /\
    is_finite e = true /\
    Rabs (B2R e - pressure (B2R x)) <= pressure (B2R x) / 10 ^ 12.
Proof.
  intros Hl Fx Hx.
  destruct (pressure_binary64 libm_exp x Hl Fx Hx) as (q & E & Hq & HE & Fe & Ee).
  exists (0x1.870068db8bac7p+2 * E)%float. split; [|split; assumption].
  unfold magnus_half. rewrite Hq. cbn [bind]. rewrite HE. reflexivity.
Qed.

(** The real Magnus exponent grows at least at the rate 0.036 per degree
    on [-100, 100]. *)
Lemma exponent_growth (D T : R) :
  -100 <= D -> D <= T -> T <= 100 ->
  0.036 * (T - D) <= exponent T - exponent D.
Proof.
  intros HD HDT HT. pose proof B_bounds as HB. unfold exponent, A.
  assert (PT : 0 < B + T) by lra. assert (PD : 0 < B + D) by lra.
  replace (17.625 * T / (B + T) - 17.625 * D / (B + D))
    with (17.625 * B * (T - D) / ((B + T) * (B + D))) by (field; lra).
  apply Rmult_le_reg_r with ((B + T) * (B + D)); [nra|].
  replace (17.625 * B * (T - D) / ((B + T) * (B + D)) * ((B + T) * (B + D)))
    with (17.625 * B * (T - D)) by (field; lra).
  assert ((B + T) * (B + D) <= 343.05 * 343.05) by nra.
  assert (0 <= T - D) by lra.
  nra.
Qed.

Lemma pressure_growth (D T : R) :
  -100 <= D -> D <= T -> T <= 100 ->
  pressure D * (1 + 0.036 * (T - D)) <= pressure T.
Proof.
  intros HD HDT HT. pose proof (exponent_growth D T HD HDT HT) as G.
  unfold pressure. pose proof C_bounds as HC.
  assert (E : exp (exponent T)
              = exp (exponent D) * exp (exponent T - exponent D)).
  { rewrite <- exp_plus. f_equal. ring. }
  rewrite E. pose proof (exp_ineq1_le (exponent T - exponent D)).
  pose proof (exp_pos (exponent D)).
  assert (1 + 0.036 * (T - D) <= exp (exponent T - exponent D)) by lra.
  rewrite Rmult_assoc. apply Rmult_le_compat_l; [lra|].
  apply Rmult_le_compat_l; lra.
Qed.

(** The difference of two computed pressures, for inputs in
    [-100, 100]. *)
Lemma calculate_vpd_real (libm_exp : float -> float) (t d : float) :
  Libm.exp_conforms libm_exp ->
  is_finite t = true -> -100 <= B2R t <= 100 ->
  is_finite d = true -> -100 <= B2R d <= 100 ->
  exists e_s e_a : float,
    magnus_half libm_exp t = Ret e_s /\
    magnus_half libm_exp d = Ret e_a /\
    Binary64.calculate_vpd libm_exp t d = Ret (e_s - e_a)%float /\
    is_finite (e_s - e_a) = true /\
    Rabs (B2R e_s - pressure (B2R t)) <= pressure (B2R t) / 10 ^ 12 /\
    Rabs (B2R e_a - pressure (B2R d)) <= pressure (B2R d) / 10 ^ 12 /\
    Rabs (B2R (e_s - e_a) - (B2R e_s - B2R e_a))
      <= round_err (B2R e_s - B2R e_a).
Proof.
  intros Hl Ft Ht Fd Hd.
  destruct (magnus_half_real libm_exp t Hl Ft Ht) as (es & Hs & Fs & Es).
  destruct (magnus_half_real libm_exp d Hl Fd Hd) as (ea & Ha & Fa & Ea).
  pose proof (pressure_range _ Ht) as Pt. pose proof (pressure_range _ Hd) as Pd.
  assert (E12 : 10 ^ 12 = 1000000000000) by lra.
  assert (E6 : 10 ^ 6 = 1000000) by lra.
  assert (E15 : 10 ^ 15 = 1000000000000000) by lra.
  rewrite E12, E6 in *.
  pose proof (Rabs_le_inv _ _ Es) as Es'. pose proof (Rabs_le_inv _ _ Ea) as Ea'.
  assert (HX : Rabs (B2R es - B2R ea) <= 5001) by (apply Rabs_le; lra).
  pose proof bpow_1023_big as Hbig.
  assert (H9 : 10 ^ 9 = 1000000000) by lra.
  destruct (sub_real es ea Fs Fa) as [Fv Ev]; [lra|].
  pose proof (round_err_le _ _ HX) as Rv. rewrite E15 in Rv.
  assert (Hh : 0 <= 1 / 10 ^ 300 <= 1 / 10 ^ 15).
  { split.
    - apply Rlt_le, Rdiv_lt_0_compat; [lra | apply pow_lt; lra].
    - unfold Rdiv. rewrite !Rmult_1_l. apply Rinv_le_contravar; [apply pow_lt; lra|].
      apply Rle_pow; [lra | lia]. }
  rewrite E15 in Hh.
  exists es, ea. repeat split; try assumption.
  rewrite calculate_vpd_halves, Hs. cbn [bind]. rewrite Ha. reflexivity.
Qed.

Lemma tiny_bound : 0 <= 1 / 10 ^ 300 <= 1 / 10 ^ 30.
Proof.
  split.
  - apply Rlt_le, Rdiv_lt_0_compat; [lra | apply pow_lt; lra].
  - unfold Rdiv. rewrite !Rmult_1_l. apply Rinv_le_contravar; [apply pow_lt; lra|].
    apply Rle_pow; [lra | lia].
Qed.

(** C10, amended.  For finite binary64 inputs in [-100, 100] with the
    temperature at least [1e-9] above the dew point (and a conforming
    [exp]), [calculate_vpd] returns a finite value that is strictly
    positive. *)
Theorem calculate_vpd_positive_binary64
    (libm_exp : float -> float) (t d : float) :
  Libm.exp_conforms libm_exp ->
  is_finite t = true -> is_finite d = true ->
  -100 <= B2R d -> B2R d + 1 / 10 ^ 9 <= B2R t -> B2R t <= 100 ->
  exists v : float,
    Binary64.calculate_vpd libm_exp t d = Ret v /\
    is_finite v = true /\ 0 < B2R v.
Proof.
  intros Hl Ft Fd Hd Hdt Ht.
  assert (E9 : 10 ^ 9 = 1000000000) by lra. rewrite E9 in Hdt.
  destruct (calculate_vpd_real libm_exp t d Hl Ft ltac:(lra) Fd ltac:(lra))
    as (es & ea & _ & _ & Hv & Fv & Es & Ea & Ev).
  exists (es - ea)%float. split; [exact Hv|]. split; [exact Fv|].
  pose proof (pressure_growth (B2R d) (B2R t) Hd ltac:(lra) Ht) as G.
  pose proof (pressure_range (B2R d) ltac:(lra)) as Pd.
  pose proof (pressure_range (B2R t) ltac:(lra)) as Pt.
  assert (E12 : 10 ^ 12 = 1000000000000) by lra.
  assert (E6 : 10 ^ 6 = 1000000) by lra.
  assert (E15 : 10 ^ 15 = 1000000000000000) by lra.
  assert (E30 : 10 ^ 30 = 1000000000000000000000000000000) by lra.
  rewrite E12, E6 in *.
  apply Rabs_le_inv in Es. apply Rabs_le_inv in Ea.
  set (X := B2R es - B2R ea) in *.
  assert (G' : pressure (B2R d) * (1 + 0.036 / 1000000000) <= pressure (B2R t)).
  { eapply Rle_trans; [|exact G]. apply Rmult_le_compat_l; lra. }
  assert (HX : pressure (B2R d) * (3 / 100000000000) <= X) by (unfold X; lra).
  assert (HXpos : 0 < X) by lra.
  assert (HXabs : Rabs X <= X) by (rewrite Rabs_pos_eq; lra).
  pose proof (round_err_le _ _ HXabs) as Rv. rewrite E15 in Rv.
  pose proof tiny_bound as Hh. rewrite E30 in Hh.
  apply Rabs_le_inv in Ev. lra.
Qed.

(** C8, amended.  For finite binary64 inputs in [-100, 100] with the dew
    point at least [1e-9] above the temperature (and a conforming
    [exp]), the call is not rejected: [calculate_vpd] returns a finite
    value, and that value is strictly negative. *)
Theorem calculate_vpd_negative_binary64
    (libm_exp : float -> float) (t d : float) :
  Libm.exp_conforms libm_exp ->
  is_finite t = true -> is_finite d = true ->
  -100 <= B2R t -> B2R t + 1 / 10 ^ 9 <= B2R d -> B2R d <= 100 ->
  exists v : float,
    Binary64.calculate_vpd libm_exp t d = Ret v /\
    is_finite v = true /\ B2R v < 0.
Proof.
  intros Hl Ft Fd Ht Htd Hd.
  assert (E9 : 10 ^ 9 = 1000000000) by lra. rewrite E9 in Htd.
  destruct (calculate_vpd_real libm_exp t d Hl Ft ltac:(lra) Fd ltac:(lra))
    as (es & ea & _ & _ & Hv & Fv & Es & Ea & Ev).
  exists (es - ea)%float. split; [exact Hv|]. split; [exact Fv|].
  pose proof (pressure_growth (B2R t) (B2R d) Ht ltac:(lra) Hd) as G.
  pose proof (pressure_range (B2R d) ltac:(lra)) as Pd.
  pose proof (pressure_range (B2R t) ltac:(lra)) as Pt.
  assert (E12 : 10 ^ 12 = 1000000000000) by lra.
  assert (E6 : 10 ^ 6 = 1000000) by lra.
  assert (E15 : 10 ^ 15 = 1000000000000000) by lra.
  assert (E30 : 10 ^ 30 = 1000000000000000000000000000000) by lra.
  rewrite E12, E6 in *.
  apply Rabs_le_inv in Es. apply Rabs_le_inv in Ea.
  set (X := B2R es - B2R ea) in *.
  assert (G' : pressure (B2R t) * (1 + 0.036 / 1000000000) <= pressure (B2R d)).
  { eapply Rle_trans; [|exact G]. apply Rmult_le_compat_l; lra. }
  assert (HX : X <= - (pressure (B2R t) * (3 / 100000000000))) by (unfold X; lra).
  assert (HXneg : X < 0) by lra.
  assert (HXabs : Rabs X <= - X) by (rewrite Rabs_left; lra).
  pose proof (round_err_le _ _ HXabs) as Rv. rewrite E15 in Rv.
  pose proof tiny_bound as Hh. rewrite E30 in Hh.
  apply Rabs_le_inv in Ev. lra.
Qed.

(** C6, amended.  For finite binary64 [lo], [hi] and [x] in [-100, 100]
    with [lo] at least [0.001] below [hi] (and a conforming [exp]): as
    temperatures at the fixed dew point [x], [lo] gives a strictly
    smaller deficit than [hi]; as dew points at the fixed temperature
    [x], [hi] gives a strictly smaller deficit than [lo].  All four
    calls return finite values. *)
Theorem calculate_vpd_monotone_binary64
    (libm_exp : float -> float) (lo hi x : float) :
  Libm.exp_conforms libm_exp ->
  is_finite lo = true -> is_finite hi = true -> is_finite x = true ->
  -100 <= B2R lo -> B2R lo + 1 / 1000 <= B2R hi -> B2R hi <= 100 ->
  -100 <= B2R x <= 100 ->
  (exists v1 v2 : float,
     Binary64.calculate_vpd libm_exp lo x = Ret v1 /\
     Binary64.calculate_vpd libm_exp hi x = Ret v2 /\
     is_finite v1 = true /\ is_finite v2 = true /\ B2R v1 < B2R v2) /\
  (exists w1 w2 : float,
     Binary64.calculate_vpd libm_exp x hi = Ret w1 /\
     Binary64.calculate_vpd libm_exp x lo = Ret w2 /\
     is_finite w1 = true /\ is_finite w2 = true /\ B2R w1 < B2R w2).
Proof.
  intros Hl Flo Fhi Fx Hlo Hsep Hhi Hx.
  pose proof (pressure_growth (B2R lo) (B2R hi) Hlo ltac:(lra) Hhi) as G.
  pose proof (pressure_range (B2R lo) ltac:(lra)) as Plo.
  pose proof (pressure_range (B2R hi) ltac:(lra)) as Phi.
  pose proof (pressure_range (B2R x) Hx) as Px.
  assert (E12 : 10 ^ 12 = 1000000000000) by lra.
  assert (E6 : 10 ^ 6 = 1000000) by lra.
  assert (E15 : 10 ^ 15 = 1000000000000000) by lra.
  assert (E30 : 10 ^ 30 = 1000000000000000000000000000000) by lra.
  pose proof tiny_bound as Hh. rewrite E30 in Hh.
  assert (G' : pressure (B2R lo) * (1 + 0.036 / 1000) <= pressure (B2R hi)).
  { eapply Rle_trans; [|exact G]. apply Rmult_le_compat_l; lra. }
  split.
  - destruct (calculate_vpd_real libm_exp lo x Hl Flo ltac:(lra) Fx Hx)
      as (e1 & ex & H1 & Hx1 & Hv1 & Fv1 & E1 & Ex & Ev1).
    destruct (calculate_vpd_real libm_exp hi x Hl Fhi ltac:(lra) Fx Hx)
      as (e2 & ex' & H2 & Hx2 & Hv2 & Fv2 & E2 & _ & Ev2).
    assert (ex' = ex) by congruence. subst ex'.
    exists (e1 - ex)%float, (e2 - ex)%float.
    split; [exact Hv1|]. split; [exact Hv2|].
    split; [exact Fv1|]. split; [exact Fv2|].
    rewrite E12, E6 in *.
    apply Rabs_le_inv in E1. apply Rabs_le_inv in E2. apply Rabs_le_inv in Ex.
    assert (A1 : Rabs (B2R e1 - B2R ex) <= 5001) by (apply Rabs_le; lra).
    assert (A2 : Rabs (B2R e2 - B2R ex) <= 5001) by (apply Rabs_le; lra).
    pose proof (round_err_le _ _ A1) as R1. pose proof (round_err_le _ _ A2) as R2.
    rewrite E15 in R1, R2.
    apply Rabs_le_inv in Ev1. apply Rabs_le_inv in Ev2. lra.
  - destruct (calculate_vpd_real libm_exp x hi Hl Fx Hx Fhi ltac:(lra))
      as (ex & e2 & Hx1 & H2 & Hv1 & Fv1 & Ex & E2 & Ev1).
    destruct (calculate_vpd_real libm_exp x lo Hl Fx Hx Flo ltac:(lra))
      as (ex' & e1 & Hx2 & H1 & Hv2 & Fv2 & _ & E1 & Ev2).
    assert (ex' = ex) by congruence. subst ex'.
    exists (ex - e2)%float, (ex - e1)%float.
    split; [exact Hv1|]. split; [exact Hv2|].
    split; [exact Fv1|]. split; [exact Fv2|].
    rewrite E12, E6 in *.
    apply Rabs_le_inv in E1. apply Rabs_le_inv in E2. apply Rabs_le_inv in Ex.
    assert (A1 : Rabs (B2R ex - B2R e2) <= 5001) by (apply Rabs_le; lra).
    assert (A2 : Rabs (B2R ex - B2R e1) <= 5001) by (apply Rabs_le; lra).
    pose proof (round_err_le _ _ A1) as R1. pose proof (round_err_le _ _ A2) as R2.
    rewrite E15 in R1, R2.
    apply Rabs_le_inv in Ev1. apply Rabs_le_inv in Ev2. lra.
Qed.

End Vpd_binary64.

(** ** The conversion against the reals *)

Section Conversion_rounding.
Local Open Scope R_scope.

Lemma B2R_32 : is_finite 32%float = true /\ B2R 32%float = 32.
Proof.
  destruct (B2R_finite 32%float false 4503599627370496 (-47) eq_refl) as [F V].
  split; [exact F|]. rewrite V. unfold sgn. rewrite bpow_Zneg. eval_pow. lra.
Qed.

Lemma B2R_5 : is_finite 5%float = true /\ B2R 5%float = 5.
Proof.
  destruct (B2R_finite 5%float false 5629499534213120 (-50) eq_refl) as [F V].
  split; [exact F|]. rewrite V. unfold sgn. rewrite bpow_Zneg. eval_pow. lra.
Qed.

Lemma B2R_9 : is_finite 9%float = true /\ B2R 9%float = 9.
Proof.
  destruct (B2R_finite 9%float false 5066549580791808 (-49) eq_refl) as [F V].
  split; [exact F|]. rewrite V. unfold sgn. rewrite bpow_Zneg. eval_pow. lra.
Qed.

Lemma bpow_1023_huge : 8 * 10 ^ 307 <= bpow 1023.
Proof.
  rewrite (bpow_IZR 1023) by lia.
  assert (E : 10 ^ 307 = IZR (10 ^ 307)) by (rewrite pow_IZR; reflexivity).
  rewrite E, <- mult_IZR. apply IZR_le. vm_compute. discriminate.
Qed.

Lemma tiny_300 : 0 < 1 / 10 ^ 300 <= 1 / 10 ^ 15.
Proof.
  split.
  - apply Rdiv_lt_0_compat; [lra | apply pow_lt; lra].
  - unfold Rdiv. rewrite !Rmult_1_l. apply Rinv_le_contravar; [apply pow_lt; lra|].
    apply Rle_pow; [lra | lia].
Qed.

(** One rounded operation, in the form used below: a bound [V] on the
    exact value gives the error [V / 10 ^ 15 + 1 / 10 ^ 300]. *)
Lemma Rabs_triangle_le (x y e V : R) :
  Rabs (x - y) <= e -> Rabs y <= V -> Rabs x <= V + e.
Proof.
  intros H1 H2. apply Rabs_le_inv in H1. apply Rabs_le_inv in H2.
  apply Rabs_le. lra.
Qed.

(** [fahrenheit_to_celsius] against [(f - 32) * 5 / 9] over the reals. *)
Lemma fahrenheit_to_celsius_rounding (f : float) :
  is_finite f = true -> Rabs (B2R f) <= 10 ^ 307 ->
  exists c : float,
    Binary64.fahrenheit_to_celsius f = Ret c /\
    is_finite c = true /\
    Rabs (B2R c - (B2R f - 32) * 5 / 9)
      <= 2 / 10 ^ 15 * Rabs (B2R f - 32) + 3 / 10 ^ 300.
Proof.
  intros Ff HF. set (F := B2R f) in *.
  destruct B2R_32 as [F32 V32]. destruct B2R_5 as [F5 V5].
  destruct B2R_9 as [F9 V9].
  pose proof bpow_1023_huge as Hbig. pose proof tiny_300 as Hh.
  assert (P307 : 100 <= 10 ^ 307)
    by (apply Rle_trans with (10 ^ 2); [lra | apply Rle_pow; [lra | lia]]).
  set (big := 10 ^ 307) in *. set (h := 1 / 10 ^ 300) in *.
  assert (E15 : 10 ^ 15 = 1000000000000000) by lra.
  rewrite E15 in *.
  set (x := F - 32).
  assert (Hx : Rabs x <= big + 32).
  { unfold x. apply Rabs_le_inv in HF. apply Rabs_le. lra. }
  pose proof (Rabs_pos x) as Px.
  (* f - 32 *)
  destruct (sub_real f 32 Ff F32) as [Fs Es].
  { rewrite V32. fold F x. lra. }
  rewrite V32 in Es. fold F x in Es.
  pose proof (round_err_le x (Rabs x) ltac:(lra)) as Rs. rewrite E15 in Rs. fold h in Rs.
  set (s := (f - 32)%float) in *.
  assert (Hs : Rabs (B2R s - x) <= Rabs x / 1000000000000000 + h) by lra.
  assert (As : Rabs (B2R s) <= Rabs x * (1 + 1 / 1000000000000000) + h).
  { pose proof (Rabs_triangle_le _ _ _ _ Hs (Rle_refl _)). lra. }
  (* (f - 32) * 5 *)
  assert (A5s : Rabs (B2R s * 5) <= 5 * Rabs (B2R s)).
  { rewrite Rabs_mult, (Rabs_pos_eq 5) by lra. lra. }
  destruct (mul_real s 5 Fs F5) as [Fp Ep].
  { rewrite V5. lra. }
  rewrite V5 in Ep.
  pose proof (round_err_le _ _ A5s) as Rp. rewrite E15 in Rp. fold h in Rp.
  set (p := (s * 5)%float) in *.
  assert (Hp : Rabs (B2R p - B2R s * 5)
               <= 5 * Rabs (B2R s) / 1000000000000000 + h) by lra.
  assert (Ap : Rabs (B2R p)
               <= 5 * Rabs (B2R s) * (1 + 1 / 1000000000000000) + h).
  { pose proof (Rabs_triangle_le _ _ _ _ Hp A5s). lra. }
  (* ... / 9 *)
  assert (A9 : Rabs (B2R p / 9) <= Rabs (B2R p) / 9).
  { unfold Rdiv. rewrite Rabs_mult, (Rabs_pos_eq (/ 9)) by lra. lra. }
  destruct (div_real p 9 Fp F9) as [Fc Ec].
  { rewrite V9. lra. }
  { rewrite V9. lra. }
  rewrite V9 in Ec.
  pose proof (round_err_le _ _ A9) as Rc. rewrite E15 in Rc. fold h in Rc.
  exists (p / 9)%float. split; [|split].
  - unfold Binary64.fahrenheit_to_celsius, Binary64.float_truediv. fold s p.
    reflexivity.
  - exact Fc.
  - apply Rabs_le_inv in Hs. apply Rabs_le_inv in Hp.
    assert (Hc : Rabs (B2R (p / 9) - B2R p / 9)
                 <= Rabs (B2R p) / 9 / 1000000000000000 + h) by lra.
    apply Rabs_le_inv in Hc.
    assert (E300 : 3 / 10 ^ 300 = 3 * h) by (unfold h; lra).
    rewrite E300. fold x.
    apply Rabs_le. split; lra.
Qed.

(** The Fahrenheit value computed from a Celsius one is accurate. *)
Lemma celsius_to_fahrenheit_accurate (c : float) :
  is_finite c = true -> Rabs (B2R c) <= 5 * 10 ^ 306 ->
  is_finite (Binary64.celsius_to_fahrenheit c) = true /\
  Rabs (B2R (Binary64.celsius_to_fahrenheit c) - (B2R c * 9 / 5 + 32))
    <= (6 * Rabs (B2R c) + 33) / 10 ^ 15.
Proof.
  intros Fc HC. set (c0 := B2R c) in *.
  destruct B2R_32 as [F32 V32]. destruct B2R_5 as [F5 V5].
  destruct B2R_9 as [F9 V9].
  pose proof bpow_1023_huge as Hbig. pose proof tiny_300 as Hh.
  assert (E307 : 10 ^ 307 = 10 * 10 ^ 306) by (cbn [pow]; reflexivity).
  rewrite E307 in Hbig.
  assert (P306 : 100 <= 10 ^ 306)
    by (apply Rle_trans with (10 ^ 2); [lra | apply Rle_pow; [lra | lia]]).
  set (big := 10 ^ 306) in *. set (h := 1 / 10 ^ 300) in *.
  assert (E15 : 10 ^ 15 = 1000000000000000) by lra.
  rewrite E15 in *.
  pose proof (Rabs_pos c0) as Pc.
  (* c * 9 *)
  assert (A9 : Rabs (c0 * 9) <= 9 * Rabs c0).
  { rewrite Rabs_mult, (Rabs_pos_eq 9) by lra. lra. }
  destruct (mul_real c 9 Fc F9) as [Fm Em].
  { rewrite V9. fold c0. lra. }
  rewrite V9 in Em. fold c0 in Em.
  pose proof (round_err_le _ _ A9) as Rm. rewrite E15 in Rm. fold h in Rm.
  set (m := (c * 9)%float) in *.
  assert (Hm : Rabs (B2R m - c0 * 9) <= 9 * Rabs c0 / 1000000000000000 + h)
    by lra.
  assert (Am : Rabs (B2R m) <= 9 * Rabs c0 * (1 + 1 / 1000000000000000) + h).
  { pose proof (Rabs_triangle_le _ _ _ _ Hm A9). lra. }
  (* ... / 5 *)
  assert (A5 : Rabs (B2R m / 5) <= Rabs (B2R m) / 5).
  { unfold Rdiv. rewrite Rabs_mult, (Rabs_pos_eq (/ 5)) by lra. lra. }
  destruct (div_real m 5 Fm F5) as [Fn En].
  { rewrite V5. lra. }
  { rewrite V5. lra. }
  rewrite V5 in En.
  pose proof (round_err_le _ _ A5) as Rn. rewrite E15 in Rn. fold h in Rn.
  set (n := (m / 5)%float) in *.
  assert (Hn : Rabs (B2R n - B2R m / 5)
               <= Rabs (B2R m) / 5 / 1000000000000000 + h) by lra.
  assert (An : Rabs (B2R n)
               <= Rabs (B2R m) / 5 * (1 + 1 / 1000000000000000) + h).
  { pose proof (Rabs_triangle_le _ _ _ _ Hn A5). lra. }
  (* ... + 32 *)
  assert (A32 : Rabs (B2R n + 32) <= Rabs (B2R n) + 32).
  { pose proof (Rabs_pos (B2R n)) as Pn.
    pose proof (Rabs_le_inv _ _ (Rle_refl (Rabs (B2R n)))).
    apply Rabs_le. lra. }
  destruct (add_real n 32 Fn F32) as [Fr Er].
  { rewrite V32. lra. }
  rewrite V32 in Er.
  pose proof (round_err_le _ _ A32) as Rr. rewrite E15 in Rr. fold h in Rr.
  unfold Binary64.celsius_to_fahrenheit. fold m n.
  split; [exact Fr|].
  apply Rabs_le_inv in Hm. apply Rabs_le_inv in Hn.
  assert (Hr : Rabs (B2R (n + 32) - (B2R n + 32))
               <= (Rabs (B2R n) + 32) / 1000000000000000 + h) by lra.
  apply Rabs_le_inv in Hr.
  assert (Hh' : 3 * h <= 1 / 1000000000000000) by (unfold h in *; lra).
  apply Rabs_le. split; lra.
Qed.

(** X12.  For every finite binary64 [f] of magnitude at most [1e307],
    [fahrenheit_to_celsius] returns a finite value, and its distance to
    [(f - 32) * 5 / 9] over the reals is at most
    [2e-15 * |f - 32| + 3e-300]. *)
Theorem fahrenheit_to_celsius_accurate (f : float) :
  is_finite f = true -> Rabs (B2R f) <= 10 ^ 307 ->
  exists c : float,
    Binary64.fahrenheit_to_celsius f = Ret c /\
    is_finite c = true /\
    Rabs (B2R c - (B2R f - 32) * 5 / 9)
      <= 2 / 10 ^ 15 * Rabs (B2R f - 32) + 3 / 10 ^ 300.
Proof. exact (fahrenheit_to_celsius_rounding f). Qed.

(** C7, as stated, fails: at [c = 2e307] (the float
    [0x1.c7b1f3cac7433p+1020]) the product [c * 9] overflows, the
    Fahrenheit value is [infinity], and so is the value
    [fahrenheit_to_celsius] returns for it; no tolerance makes that
    equal to [c]. *)
Lemma round_trip_overflows_at_2e307 :
  is_finite 0x1.c7b1f3cac7433p+1020 = true /\
  Binary64.fahrenheit_to_celsius
    (Binary64.celsius_to_fahrenheit 0x1.c7b1f3cac7433p+1020) = Ret infinity.
Proof. split; vm_compute; reflexivity. Qed.

(** C7, amended.  For every finite binary64 [c] of magnitude at most
    [5e306], [fahrenheit_to_celsius (c * 9 / 5 + 32)], all in binary64,
    returns a finite value within [(8 * |c| + 20) * 1e-15] of [c]. *)
Theorem fahrenheit_to_celsius_round_trip_binary64 (c : float) :
  is_finite c = true -> Rabs (B2R c) <= 5 * 10 ^ 306 ->
  exists r : float,
    Binary64.fahrenheit_to_celsius (Binary64.celsius_to_fahrenheit c) = Ret r /\
    is_finite r = true /\
    Rabs (B2R r - B2R c) <= (8 * Rabs (B2R c) + 20) / 10 ^ 15.
Proof.
  intros Fc HC.
  destruct (celsius_to_fahrenheit_accurate c Fc HC) as [Ff Hf].
  set (f := Binary64.celsius_to_fahrenheit c) in *.
  set (c0 := B2R c) in *.
  pose proof tiny_300 as Hh.
  assert (E307 : 10 ^ 307 = 10 * 10 ^ 306) by (cbn [pow]; reflexivity).
  assert (P306 : 100 <= 10 ^ 306)
    by (apply Rle_trans with (10 ^ 2); [lra | apply Rle_pow; [lra | lia]]).
  assert (E15 : 10 ^ 15 = 1000000000000000) by lra.
  rewrite E15 in *.
  pose proof (Rabs_pos c0) as Pc.
  pose proof (Rabs_le_inv _ _ (Rle_refl (Rabs c0))) as Ic.
  apply Rabs_le_inv in Hf.
  assert (HF : Rabs (B2R f) <= 10 ^ 307).
  { rewrite E307. set (big := 10 ^ 306) in *. apply Rabs_le. lra. }
  destruct (fahrenheit_to_celsius_rounding f Ff HF) as (r & Hr & Fr & Er).
  exists r. split; [exact Hr|]. split; [exact Fr|].
  rewrite E15 in Er.
  assert (Ax : Rabs (B2R f - 32)
               <= 9 / 5 * Rabs c0 + (6 * Rabs c0 + 33) / 1000000000000000).
  { apply Rabs_le. lra. }
  pose proof (Rabs_pos (B2R f - 32)) as Px.
  set (h := 1 / 10 ^ 300) in *.
  assert (E300 : 3 / 10 ^ 300 = 3 * h) by (unfold h; lra).
  rewrite E300 in Er.
  apply Rabs_le_inv in Er.
  assert (Hh' : 3 * h <= 1 / 1000000000000000) by lra.
  set (big := 10 ^ 306) in *.
  apply Rabs_le. split; lra.
Qed.

End Conversion_rounding.

(** ** The binary64 deficit against the exact model *)

Section Refinement.
Local Open Scope R_scope.
Import MagnusReal.

(** The binary64 literals [243.04] and [6.1094] against the decimal
    ones. *)
Lemma literal_errors :
  Rabs (B - 243.04) <= 1 / 10 ^ 14 /\ Rabs (C - 6.1094) <= 1 / 10 ^ 15.
Proof.
  unfold B, C. eval_pow. split; apply Rabs_le; lra.
Qed.

(** The Magnus pressure with the binary64 coefficients against the one
    with the decimal coefficients. *)
Lemma pressure_magnus (T : R) :
  -100 <= T <= 100 ->
  Rabs (pressure T - Exact.magnus T) <= Exact.magnus T / 10 ^ 14.
Proof.
  intros HT. destruct literal_errors as [HB HC].
  assert (E14 : 10 ^ 14 = 100000000000000) by lra.
  assert (E15 : 10 ^ 15 = 1000000000000000) by lra.
  rewrite E14 in *. rewrite E15 in *.
  apply Rabs_le_inv in HB. apply Rabs_le_inv in HC.
  unfold pressure, Exact.magnus, exponent, A.
  set (Q := 17.625 * T / (243.04 + T)).
  set (Q' := 17.625 * T / (B + T)).
  assert (PB : 143 <= B + T) by lra.
  assert (P0 : 143 <= 243.04 + T) by lra.
  assert (HD : Rabs (Q' - Q) <= 1 / 1000000000000000).
  { unfold Q, Q'.
    replace (17.625 * T / (B + T) - 17.625 * T / (243.04 + T))
      with (17.625 * T * (243.04 - B) / ((B + T) * (243.04 + T)))
      by (field; lra).
    assert (Hden : 20449 <= (B + T) * (243.04 + T)) by nra.
    assert (Hnum : -1762.5 / 100000000000000
                   <= 17.625 * T * (243.04 - B)
                   <= 1762.5 / 100000000000000) by (split; nra).
    apply Rabs_le. split.
    - apply Rmult_le_reg_r with ((B + T) * (243.04 + T)); [lra|].
      unfold Rdiv at 2. rewrite Rmult_assoc, Rinv_l, Rmult_1_r by lra. nra.
    - apply Rmult_le_reg_r with ((B + T) * (243.04 + T)); [lra|].
      unfold Rdiv at 1. rewrite Rmult_assoc, Rinv_l, Rmult_1_r by lra. nra. }
  assert (EX : exp Q' = exp Q * exp (Q' - Q)).
  { rewrite <- exp_plus. f_equal. ring. }
  destruct (exp_small (Q' - Q) (1 / 1000000000000000) HD ltac:(lra))
    as [D1 D2].
  pose proof (exp_pos Q) as PQ. rewrite EX.
  set (X := exp Q) in *. set (Y := exp (Q' - Q)) in *.
  assert (L1 : X * (1 - 1 / 1000000000000000) <= X * Y
               <= X * (1 + 2 / 1000000000000000)) by (split; nra).
  assert (PXY : 0 < X * Y) by nra.
  apply Rabs_le. split.
  - apply Rle_trans with ((6.1094 - 1 / 1000000000000000)
                          * (X * (1 - 1 / 1000000000000000)) - 6.1094 * X);
      [nra|].
    unfold Rminus. apply Rplus_le_compat_r.
    apply Rmult_le_compat; nra.
  - apply Rle_trans with ((6.1094 + 1 / 1000000000000000)
                          * (X * (1 + 2 / 1000000000000000)) - 6.1094 * X);
      [|nra].
    unfold Rminus. apply Rplus_le_compat_r.
    apply Rmult_le_compat; nra.
Qed.

Lemma magnus_range (T : R) :
  -100 <= T <= 100 -> 0 < Exact.magnus T <= 5001.
Proof.
  intros HT. pose proof (pressure_magnus T HT) as H.
  pose proof (pressure_range T HT) as [_ HP].
  assert (E14 : 10 ^ 14 = 100000000000000) by lra. rewrite E14 in H.
  apply Rabs_le_inv in H.
  assert (0 < Exact.magnus T).
  { unfold Exact.magnus. pose proof (exp_pos (17.625 * T / (243.04 + T))). lra. }
  lra.
Qed.

(** On [-100, 100] the binary64 result is within [1e-7] of the Magnus
    difference over the reals, which is what the exact model returns. *)
Lemma calculate_vpd_refines_exact
    (libm_exp : float -> float) (t d : float) :
  Libm.exp_conforms libm_exp ->
  is_finite t = true -> -100 <= B2R t <= 100 ->
  is_finite d = true -> -100 <= B2R d <= 100 ->
  exists v : float,
    Binary64.calculate_vpd libm_exp t d = Ret v /\
    is_finite v = true /\
    Exact.calculate_vpd (B2R t) (B2R d)
      = Ret (Exact.vpd_spec (B2R t) (B2R d)) /\
    Rabs (B2R v - Exact.vpd_spec (B2R t) (B2R d)) <= 1 / 10 ^ 7.
Proof.
  intros Hl Ft Ht Fd Hd.
  destruct (calculate_vpd_real libm_exp t d Hl Ft Ht Fd Hd)
    as (es & ea & _ & _ & Hv & Fv & Es & Ea & Ev).
  exists (es - ea)%float. split; [exact Hv|]. split; [exact Fv|]. split.
  { apply calculate_vpd_returns; lra. }
  pose proof (pressure_magnus _ Ht) as Mt. pose proof (pressure_magnus _ Hd) as Md.
  pose proof (magnus_range _ Ht) as Rt. pose proof (magnus_range _ Hd) as Rd.
  pose proof (pressure_range _ Ht) as Pt. pose proof (pressure_range _ Hd) as Pd.
  assert (E14 : 10 ^ 14 = 100000000000000) by lra.
  assert (E15 : 10 ^ 15 = 1000000000000000) by lra.
  assert (E12 : 10 ^ 12 = 1000000000000) by lra.
  assert (E6 : 10 ^ 6 = 1000000) by lra.
  assert (E7 : 10 ^ 7 = 10000000) by lra.
  rewrite E14, E12, E6, E7 in *.
  apply Rabs_le_inv in Es. apply Rabs_le_inv in Ea.
  apply Rabs_le_inv in Mt. apply Rabs_le_inv in Md.
  assert (HX : Rabs (B2R es - B2R ea) <= 5001) by (apply Rabs_le; lra).
  pose proof (round_err_le _ _ HX) as Rv. rewrite E15 in Rv.
  pose proof tiny_300 as Hh. rewrite E15 in Hh.
  assert (Ev' : Rabs (B2R (es - ea) - (B2R es - B2R ea))
                <= 5001 / 1000000000000000 + 1 / 10 ^ 300) by lra.
  apply Rabs_le_inv in Ev'.
  unfold Exact.vpd_spec. set (h := 1 / 10 ^ 300) in *.
  apply Rabs_le. split; lra.
Qed.

(** X15.  For finite binary64 inputs in [-100, 100] (with a conforming
    [exp]), [calculate_vpd] returns a finite value of magnitude at most
    5002 hPa. *)
Theorem calculate_vpd_bounded_binary64
    (libm_exp : float -> float) (t d : float) :
  Libm.exp_conforms libm_exp ->
  is_finite t = true -> -100 <= B2R t <= 100 ->
  is_finite d = true -> -100 <= B2R d <= 100 ->
  exists v : float,
    Binary64.calculate_vpd libm_exp t d = Ret v /\
    is_finite v = true /\
    Rabs (B2R v) <= 5002.
Proof.
  intros Hl Ft Ht Fd Hd.
  destruct (calculate_vpd_refines_exact libm_exp t d Hl Ft Ht Fd Hd)
    as (v & Hv & Fv & _ & Ev).
  exists v. split; [exact Hv|]. split; [exact Fv|].
  pose proof (magnus_range _ Ht) as Rt. pose proof (magnus_range _ Hd) as Rd.
  assert (E7 : 10 ^ 7 = 10000000) by lra. rewrite E7 in Ev.
  apply Rabs_le_inv in Ev. unfold Exact.vpd_spec in Ev.
  apply Rabs_le. lra.
Qed.

End Refinement.

(** ** [math.exp] and the structure of [calculate_vpd] *)

Section Math_exp.
Local Open Scope R_scope.

Variable libm_exp : float -> float.
Hypothesis conforms : Libm.exp_conforms libm_exp.

Lemma math_exp_overflow (q : float) :
  is_finite q = true -> 710 <= B2R q ->
  Binary64.math_exp libm_exp q = Raise OverflowError.
Proof.
  intros Fq Hq. unfold Binary64.math_exp.
  rewrite (Libm.exp_overflow _ conforms q Fq Hq).
  change (is_nan infinity) with false. change (is_infinity infinity) with true.
  rewrite Fq. reflexivity.
Qed.

Lemma math_exp_underflow (q : float) :
  is_finite q = true -> B2R q <= -746 ->
  Binary64.math_exp libm_exp q = Ret 0%float.
Proof.
  intros Fq Hq. unfold Binary64.math_exp.
  rewrite (Libm.exp_underflow _ conforms q Fq Hq). reflexivity.
Qed.

Lemma math_exp_infinity :
  Binary64.math_exp libm_exp infinity = Ret infinity.
Proof.
  unfold Binary64.math_exp. rewrite (Libm.exp_of_infinity _ conforms).
  reflexivity.
Qed.

Lemma math_exp_accurate (q : float) :
  is_finite q = true -> -708 <= B2R q <= 709 ->
  Binary64.math_exp libm_exp q = Ret (libm_exp q).
Proof.
  intros Fq Hq. unfold Binary64.math_exp.
  destruct (Libm.exp_accurate _ conforms q Fq Hq) as [Fr _].
  rewrite (is_finite_not_nan _ Fr), (is_finite_not_infinity _ Fr).
  reflexivity.
Qed.

End Math_exp.

Section Vpd_structure.
Local Open Scope float_scope.

Variable libm_exp : float -> float.

(** [calculate_vpd] once both divisions are known not to raise. *)
Lemma calculate_vpd_eq (t d q_s q_a : float) :
  (0x1.e6147ae147ae1p+7 + t =? 0) = false ->
  (17.625 * t) / (0x1.e6147ae147ae1p+7 + t) = q_s ->
  (0x1.e6147ae147ae1p+7 + d =? 0) = false ->
  (17.625 * d) / (0x1.e6147ae147ae1p+7 + d) = q_a ->
  Binary64.calculate_vpd libm_exp t d =
  (E_s <- Binary64.math_exp libm_exp q_s ;;
   E_a <- Binary64.math_exp libm_exp q_a ;;
   Ret (0x1.870068db8bac7p+2 * E_s - 0x1.870068db8bac7p+2 * E_a))%py.
Proof.
  intros Zt <- Zd <-. unfold Binary64.calculate_vpd, Binary64.float_truediv.
  cbv zeta. rewrite Zt. cbn [bind].
  destruct (Binary64.math_exp libm_exp _) as [E_s|e]; [|reflexivity].
  cbn [bind]. rewrite Zd. reflexivity.
Qed.

Lemma calculate_vpd_zero_denominator (t d : float) :
  (0x1.e6147ae147ae1p+7 + t =? 0) = true ->
  Binary64.calculate_vpd libm_exp t d = Raise ZeroDivisionError.
Proof.
  intros Zt. unfold Binary64.calculate_vpd, Binary64.float_truediv.
  cbv zeta. rewrite Zt. reflexivity.
Qed.

Lemma calculate_vpd_zero_denominator_dew (t d E_s : float) :
  (0x1.e6147ae147ae1p+7 + t =? 0) = false ->
  Binary64.math_exp libm_exp ((17.625 * t) / (0x1.e6147ae147ae1p+7 + t))
    = Ret E_s ->
  (0x1.e6147ae147ae1p+7 + d =? 0) = true ->
  Binary64.calculate_vpd libm_exp t d = Raise ZeroDivisionError.
Proof.
  intros Zt HE Zd. unfold Binary64.calculate_vpd, Binary64.float_truediv.
  cbv zeta. rewrite Zt. cbn [bind]. rewrite HE. cbn [bind]. rewrite Zd.
  reflexivity.
Qed.

Lemma sub_self_finite (e : float) : is_finite e = true -> e - e = 0.
Proof.
  intros Fe. destruct (sub_diag e) as [N | Z]; [|exact Z].
  destruct (sub_real e e Fe Fe) as [Fv _].
  { rewrite Rminus_diag, Rabs_R0. apply bpow_pos. }
  rewrite (is_finite_not_nan _ Fv) in N. discriminate.
Qed.

End Vpd_structure.

Section Vpd_claims.
Local Open Scope float_scope.

(** C1, amended.  For every pair of binary64 inputs: when neither
    [243.04 + temperature_c] nor [243.04 + dew_point_c] compares equal to
    zero and the two calls of [math.exp] return [E_s] and [E_a],
    [calculate_vpd] returns [6.1094 * E_s - 6.1094 * E_a], products and
    difference in binary64.  And for finite inputs in [-100, 100] (with a
    conforming [exp]) it returns a finite value within [1e-7] hPa of
    [e_s - e_a], where [e_s] and [e_a] are the Magnus pressures
    [6.1094 * exp (17.625 * x / (243.04 + x))] over the reals at the
    temperature and at the dew point. *)
Theorem calculate_vpd_magnus_binary64
    (libm_exp : float -> float) (temperature_c dew_point_c : float) :
  (forall E_s E_a : float,
     (0x1.e6147ae147ae1p+7 + temperature_c =? 0) = false ->
     (0x1.e6147ae147ae1p+7 + dew_point_c =? 0) = false ->
     Binary64.math_exp libm_exp
       ((17.625 * temperature_c) / (0x1.e6147ae147ae1p+7 + temperature_c))
       = Ret E_s ->
     Binary64.math_exp libm_exp
       ((17.625 * dew_point_c) / (0x1.e6147ae147ae1p+7 + dew_point_c))
       = Ret E_a ->
     Binary64.calculate_vpd libm_exp temperature_c dew_point_c
       = Ret (0x1.870068db8bac7p+2 * E_s - 0x1.870068db8bac7p+2 * E_a)) /\
  (Libm.exp_conforms libm_exp ->
   is_finite temperature_c = true -> (-100 <= B2R temperature_c <= 100)%R ->
   is_finite dew_point_c = true -> (-100 <= B2R dew_point_c <= 100)%R ->
   exists v : float,
     Binary64.calculate_vpd libm_exp temperature_c dew_point_c = Ret v /\
     is_finite v = true /\
     (Rabs (B2R v - Exact.vpd_spec (B2R temperature_c) (B2R dew_point_c))
      <= 1 / 10 ^ 7)%R).
Proof.
  split.
  - intros E_s E_a Zt Zd Hs Ha.
    rewrite (calculate_vpd_eq libm_exp _ _ _ _ Zt eq_refl Zd eq_refl).
    rewrite Hs. cbn [bind]. rewrite Ha. reflexivity.
  - intros Hl Ft Ht Fd Hd.
    destruct (calculate_vpd_refines_exact libm_exp _ _ Hl Ft Ht Fd Hd)
      as (v & Hv & Fv & _ & Ev).
    exists v. repeat split; assumption.
Qed.

Lemma exponent_25 :
  is_finite ((17.625 * 25) / (0x1.e6147ae147ae1p+7 + 25)) = true /\
  (-708 <= B2R ((17.625 * 25) / (0x1.e6147ae147ae1p+7 + 25)) <= 709)%R.
Proof.
  float_value ((17.625 * 25) / (0x1.e6147ae147ae1p+7 + 25)) F V.
  split; [exact F|]. rewrite V. lra.
Qed.

Lemma exponent_20 :
  is_finite ((17.625 * 20) / (0x1.e6147ae147ae1p+7 + 20)) = true /\
  (-708 <= B2R ((17.625 * 20) / (0x1.e6147ae147ae1p+7 + 20)) <= 709)%R.
Proof.
  float_value ((17.625 * 20) / (0x1.e6147ae147ae1p+7 + 20)) F V.
  split; [exact F|]. rewrite V. lra.
Qed.

Lemma calculate_vpd_magnus_binary64_witness :
  (0x1.e6147ae147ae1p+7 + 25 =? 0) = false /\
  (0x1.e6147ae147ae1p+7 + 20 =? 0) = false /\
  Binary64.math_exp reference_exp
    ((17.625 * 25) / (0x1.e6147ae147ae1p+7 + 25))
    = Ret (reference_exp ((17.625 * 25) / (0x1.e6147ae147ae1p+7 + 25))) /\
  Binary64.math_exp reference_exp
    ((17.625 * 20) / (0x1.e6147ae147ae1p+7 + 20))
    = Ret (reference_exp ((17.625 * 20) / (0x1.e6147ae147ae1p+7 + 20))) /\
  Binary64.calculate_vpd reference_exp 25 20
    = Ret (0x1.870068db8bac7p+2
             * reference_exp ((17.625 * 25) / (0x1.e6147ae147ae1p+7 + 25))
           - 0x1.870068db8bac7p+2
             * reference_exp ((17.625 * 20) / (0x1.e6147ae147ae1p+7 + 20))) /\
  Libm.exp_conforms reference_exp /\
  exists v : float,
    Binary64.calculate_vpd reference_exp 25 20 = Ret v /\
    is_finite v = true /\
    (Rabs (B2R v - Exact.vpd_spec (B2R 25) (B2R 20)) <= 1 / 10 ^ 7)%R.
Proof.
  pose proof (math_exp_accurate reference_exp reference_exp_conforms _
                (proj1 exponent_25) (proj2 exponent_25)) as H25.
  pose proof (math_exp_accurate reference_exp reference_exp_conforms _
                (proj1 exponent_20) (proj2 exponent_20)) as H20.
  assert (R25 : (-100 <= B2R 25 <= 100)%R) by (rewrite (proj2 B2R_25); lra).
  assert (R20 : (-100 <= B2R 20 <= 100)%R) by (rewrite (proj2 B2R_20); lra).
  split; [reflexivity | split; [reflexivity|]].
  split; [exact H25 | split; [exact H20|]].
  split; [|split; [exact reference_exp_conforms|]].
  - exact (proj1 (calculate_vpd_magnus_binary64 reference_exp 25 20) _ _
             eq_refl eq_refl H25 H20).
  - exact (proj2 (calculate_vpd_magnus_binary64 reference_exp 25 20)
             reference_exp_conforms (proj1 B2R_25) R25 (proj1 B2R_20) R20).
Defined.

Lemma exponent_minus_249 :
  is_finite ((17.625 * -249) / (0x1.e6147ae147ae1p+7 + -249)) = true /\
  (710 <= B2R ((17.625 * -249) / (0x1.e6147ae147ae1p+7 + -249)))%R.
Proof.
  float_value ((17.625 * -249) / (0x1.e6147ae147ae1p+7 + -249)) F V.
  split; [exact F|]. rewrite V. lra.
Qed.

Lemma exponent_minus_240 :
  is_finite ((17.625 * -240) / (0x1.e6147ae147ae1p+7 + -240)) = true /\
  (B2R ((17.625 * -240) / (0x1.e6147ae147ae1p+7 + -240)) <= -746)%R.
Proof.
  float_value ((17.625 * -240) / (0x1.e6147ae147ae1p+7 + -240)) F V.
  split; [exact F|]. rewrite V. lra.
Qed.

Lemma exponent_minus_241 :
  is_finite ((17.625 * -241) / (0x1.e6147ae147ae1p+7 + -241)) = true /\
  (B2R ((17.625 * -241) / (0x1.e6147ae147ae1p+7 + -241)) <= -746)%R.
Proof.
  float_value ((17.625 * -241) / (0x1.e6147ae147ae1p+7 + -241)) F V.
  split; [exact F|]. rewrite V. lra.
Qed.

(** C1, as stated, fails: at temperature -249 with dew point 20 both
    denominators are nonzero, yet the Magnus exponent is about 736, the
    exponential is beyond binary64 and [math.exp] raises [OverflowError];
    nothing is returned. *)
Lemma calculate_vpd_overflows_at_minus_249 :
  (0x1.e6147ae147ae1p+7 + -249 =? 0) = false /\
  (0x1.e6147ae147ae1p+7 + 20 =? 0) = false /\
  forall libm_exp : float -> float, Libm.exp_conforms libm_exp ->
    Binary64.calculate_vpd libm_exp (-249) 20 = Raise OverflowError.
Proof.
  split; [reflexivity | split; [reflexivity|]]. intros libm_exp Hl.
  rewrite (calculate_vpd_eq libm_exp (-249) 20 _ _
             eq_refl eq_refl eq_refl eq_refl).
  rewrite (math_exp_overflow libm_exp Hl _
             (proj1 exponent_minus_249) (proj2 exponent_minus_249)).
  reflexivity.
Qed.

(** C9, as stated, fails: at (20, -249) both denominators are nonzero,
    and both [calculate_vpd 20 (-249)] and [calculate_vpd (-249) 20]
    raise [OverflowError]; there are no values to compare. *)
Lemma calculate_vpd_antisymmetry_fails_at_minus_249 :
  (0x1.e6147ae147ae1p+7 + 20 =? 0) = false /\
  (0x1.e6147ae147ae1p+7 + -249 =? 0) = false /\
  forall libm_exp : float -> float, Libm.exp_conforms libm_exp ->
    Binary64.calculate_vpd libm_exp 20 (-249) = Raise OverflowError /\
    Binary64.calculate_vpd libm_exp (-249) 20 = Raise OverflowError.
Proof.
  split; [reflexivity | split; [reflexivity|]]. intros libm_exp Hl.
  pose proof (math_exp_overflow libm_exp Hl _
                (proj1 exponent_minus_249) (proj2 exponent_minus_249)) as Ho.
  split.
  - rewrite (calculate_vpd_eq libm_exp 20 (-249) _ _
               eq_refl eq_refl eq_refl eq_refl).
    rewrite (math_exp_accurate libm_exp Hl _
               (proj1 exponent_20) (proj2 exponent_20)).
    cbn [bind]. rewrite Ho. reflexivity.
  - rewrite (calculate_vpd_eq libm_exp (-249) 20 _ _
               eq_refl eq_refl eq_refl eq_refl).
    rewrite Ho. reflexivity.
Qed.

(** C5, as stated, fails: [t = 1e308] (the float
    [0x1.1ccf385ebc8ap+1023]) is finite and [243.04 + t] is not zero, yet
    the product [17.625 * t] overflows, both pressures are [infinity] and
    [calculate_vpd t t] returns their difference NaN, which is not equal
    to zero. *)
Lemma calculate_vpd_diagonal_nan_at_1e308 :
  is_finite 0x1.1ccf385ebc8ap+1023 = true /\
  (0x1.e6147ae147ae1p+7 + 0x1.1ccf385ebc8ap+1023 =? 0) = false /\
  (nan =? 0) = false /\
  forall libm_exp : float -> float, Libm.exp_conforms libm_exp ->
    Binary64.calculate_vpd libm_exp
      0x1.1ccf385ebc8ap+1023 0x1.1ccf385ebc8ap+1023 = Ret nan.
Proof.
  split; [reflexivity | split; [reflexivity | split; [reflexivity|]]].
  intros libm_exp Hl.
  rewrite (calculate_vpd_eq libm_exp
             0x1.1ccf385ebc8ap+1023 0x1.1ccf385ebc8ap+1023 infinity infinity
             eq_refl eq_refl eq_refl eq_refl).
  rewrite (math_exp_infinity libm_exp Hl). reflexivity.
Qed.

(** C5, amended.  For every binary64 [t]: when [calculate_vpd t t]
    returns, the value is NaN or zero.  For finite [t] in [-100, 100]
    (with a conforming [exp]) it returns zero. *)
Theorem calculate_vpd_diagonal_binary64 (libm_exp : float -> float) (t : float) :
  (forall v : float,
     Binary64.calculate_vpd libm_exp t t = Ret v ->
     is_nan v = true \/ v = 0) /\
  (Libm.exp_conforms libm_exp ->
   is_finite t = true -> (-100 <= B2R t <= 100)%R ->
   Binary64.calculate_vpd libm_exp t t = Ret 0).
Proof.
  split.
  - intros v. rewrite calculate_vpd_halves.
    destruct (magnus_half libm_exp t) as [e|x]; cbn [bind]; [|discriminate].
    intros [= <-]. apply sub_diag.
  - intros Hl Ft Ht.
    destruct (magnus_half_real libm_exp t Hl Ft Ht) as (e & He & Fe & _).
    rewrite calculate_vpd_halves, He. cbn [bind].
    now rewrite (sub_self_finite e Fe).
Qed.

(** C9, amended.  For every pair of binary64 inputs,
    [calculate_vpd t d] and [calculate_vpd d t] both raise or both
    return; when they return [v] and [w], either both are NaN or
    [v == -w].  For finite inputs in [-100, 100] (with a conforming
    [exp]) both return and [v == -w]. *)
Theorem calculate_vpd_antisymmetric_binary64
    (libm_exp : float -> float) (t d : float) :
  match Binary64.calculate_vpd libm_exp t d,
        Binary64.calculate_vpd libm_exp d t with
  | Ret v, Ret w =>
      is_nan v = true /\ is_nan w = true \/ (v =? - w) = true
  | Raise _, Raise _ => True
  | _, _ => False
  end /\
  (Libm.exp_conforms libm_exp ->
   is_finite t = true -> (-100 <= B2R t <= 100)%R ->
   is_finite d = true -> (-100 <= B2R d <= 100)%R ->
   exists v w : float,
     Binary64.calculate_vpd libm_exp t d = Ret v /\
     Binary64.calculate_vpd libm_exp d t = Ret w /\
     (v =? - w) = true).
Proof.
  split.
  - rewrite !calculate_vpd_halves.
    destruct (magnus_half libm_exp t) as [e1|x1],
             (magnus_half libm_exp d) as [e2|x2]; cbn [bind]; try exact I.
    apply sub_antisym.
  - intros Hl Ft Ht Fd Hd.
    destruct (calculate_vpd_real libm_exp t d Hl Ft Ht Fd Hd)
      as (es & ea & Hs & Ha & Hv & Fv & _).
    exists (es - ea), (ea - es). split; [exact Hv|]. split.
    + rewrite calculate_vpd_halves, Ha. cbn [bind]. rewrite Hs. reflexivity.
    + destruct (sub_antisym es ea) as [[N _] | E]; [|exact E].
      rewrite (is_finite_not_nan _ Fv) in N. discriminate.
Qed.

End Vpd_claims.

(** ** Edge cases on binary64 *)

Section Vpd_edge_cases_binary64.
Local Open Scope float_scope.

Lemma magnus_half_ext (libm_exp : float -> float) (x y : float) :
  (0x1.e6147ae147ae1p+7 + x =? 0) = (0x1.e6147ae147ae1p+7 + y =? 0) ->
  (17.625 * x) / (0x1.e6147ae147ae1p+7 + x)
    = (17.625 * y) / (0x1.e6147ae147ae1p+7 + y) ->
  magnus_half libm_exp x = magnus_half libm_exp y.
Proof.
  intros Hz Hq. unfold magnus_half, Binary64.float_truediv.
  rewrite Hz, Hq. reflexivity.
Qed.

(** [15] and the next float above it give the same Magnus exponent, so
    the same pressure, whatever [exp] is. *)
Remark calculate_vpd_ties_on_adjacent_floats :
  (15 <? 0x1.e000000000001p+3) = true /\
  forall (libm_exp : float -> float) (x : float),
    Binary64.calculate_vpd libm_exp 0x1.e000000000001p+3 x
      = Binary64.calculate_vpd libm_exp 15 x /\
    Binary64.calculate_vpd libm_exp x 0x1.e000000000001p+3
      = Binary64.calculate_vpd libm_exp x 15.
Proof.
  split; [reflexivity|]. intros libm_exp x.
  rewrite !calculate_vpd_halves.
  rewrite (magnus_half_ext libm_exp 0x1.e000000000001p+3 15 eq_refl eq_refl).
  split; reflexivity.
Qed.

Lemma calculate_vpd_at_15 (libm_exp : float -> float) :
  Libm.exp_conforms libm_exp ->
  Binary64.calculate_vpd libm_exp 0x1.e000000000001p+3 15 = Ret 0 /\
  Binary64.calculate_vpd libm_exp 15 0x1.e000000000001p+3 = Ret 0.
Proof.
  intros Hl. destruct B2R_15 as [F V].
  destruct (magnus_half_real libm_exp 15 Hl F ltac:(rewrite V; lra))
    as (e & He & Fe & _).
  rewrite !calculate_vpd_halves.
  rewrite (magnus_half_ext libm_exp 0x1.e000000000001p+3 15 eq_refl eq_refl).
  rewrite He. cbn [bind]. rewrite (sub_self_finite e Fe). split; reflexivity.
Qed.

Lemma calculate_vpd_near_pole (libm_exp : float -> float) :
  Libm.exp_conforms libm_exp ->
  Binary64.calculate_vpd libm_exp (-240) (-241) = Ret 0 /\
  Binary64.calculate_vpd libm_exp (-241) (-240) = Ret 0.
Proof.
  intros Hl.
  pose proof (math_exp_underflow libm_exp Hl _
                (proj1 exponent_minus_240) (proj2 exponent_minus_240)) as H0.
  pose proof (math_exp_underflow libm_exp Hl _
                (proj1 exponent_minus_241) (proj2 exponent_minus_241)) as H1.
  split.
  - rewrite (calculate_vpd_eq libm_exp (-240) (-241) _ _
               eq_refl eq_refl eq_refl eq_refl).
    rewrite H0. cbn [bind]. rewrite H1. reflexivity.
  - rewrite (calculate_vpd_eq libm_exp (-241) (-240) _ _
               eq_refl eq_refl eq_refl eq_refl).
    rewrite H1. cbn [bind]. rewrite H0. reflexivity.
Qed.

(** Far above the offset 243.04 the sum [243.04 + x] is [x] and the
    Magnus exponent is 17.625 whatever [x] is: [2 ^ 79] and [2 ^ 80] give
    the same pressure. *)
Lemma calculate_vpd_at_large (libm_exp : float -> float) :
  Libm.exp_conforms libm_exp ->
  Binary64.calculate_vpd libm_exp 0x1p+80 0x1p+79 = Ret 0 /\
  Binary64.calculate_vpd libm_exp 0x1p+79 0x1p+80 = Ret 0.
Proof.
  intros Hl. destruct B2R_a as [Fa Va]. destruct B2R_c as [Fc Vc].
  assert (Hr : (-708 <= B2R 17.625 <= 709)%R)
    by (rewrite Va; unfold MagnusReal.A; lra).
  destruct (Libm.exp_accurate _ Hl 17.625 Fa Hr) as [FE EE].
  pose proof (math_exp_accurate libm_exp Hl 17.625 Fa Hr) as HE.
  set (E := libm_exp 17.625) in *.
  assert (Fe : is_finite (0x1.870068db8bac7p+2 * E) = true).
  { apply (mul_real 0x1.870068db8bac7p+2 E Fc FE).
    rewrite Vc, Va in *. unfold MagnusReal.A in EE.
    pose proof C_bounds as HC. pose proof u51_small as U.
    pose proof (bpow_pos (-51)) as U0.
    assert (E15 : (10 ^ 15 = 1000000000000000)%R) by lra. rewrite E15 in U.
    pose proof (exp_pos 17.625) as PX.
    assert (HX : (exp 17.625 <= 387420489)%R).
    { apply Rle_trans with (exp (INR 18)).
      - left. apply exp_increasing. simpl. lra.
      - apply Rle_trans with (3 ^ 18)%R; [apply exp_le_pow3 | lra]. }
    apply Rabs_le_inv in EE.
    assert (HB : (0 <= B2R E <= 2 * 387420489)%R) by (split; nra).
    pose proof bpow_1023_huge as Hbig.
    assert (P307 : (10000000000 <= 10 ^ 307)%R)
      by (apply Rle_trans with (10 ^ 10)%R; [lra | apply Rle_pow; [lra | lia]]).
    set (big := (10 ^ 307)%R) in *.
    rewrite Rabs_pos_eq by nra.
    apply Rle_lt_trans with (7 * (2 * 387420489))%R; [nra | lra]. }
  assert (H80 : magnus_half libm_exp 0x1p+80
                = Ret (0x1.870068db8bac7p+2 * E)).
  { unfold magnus_half, Binary64.float_truediv.
    change (0x1.e6147ae147ae1p+7 + 0x1p+80 =? 0) with false.
    cbn [bind].
    change ((17.625 * 0x1p+80) / (0x1.e6147ae147ae1p+7 + 0x1p+80))
      with 17.625.
    rewrite HE. reflexivity. }
  rewrite !calculate_vpd_halves.
  rewrite (magnus_half_ext libm_exp 0x1p+79 0x1p+80 eq_refl eq_refl).
  rewrite H80. cbn [bind].
  rewrite (sub_self_finite _ Fe). split; reflexivity.
Qed.

(** C10, as stated, fails.  The float next above 15 exceeds 15, yet both
    give the same Magnus exponent in binary64 and the deficit between
    them is zero.  -240 exceeds -241, both above -243.04, yet both
    exponentials underflow to zero and the deficit is zero.  And
    [2 ^ 80] exceeds [2 ^ 79], yet both give the exponent 17.625 and the
    deficit is zero. *)
Lemma calculate_vpd_not_positive :
  (15 <? 0x1.e000000000001p+3) = true /\ (-241 <? -240) = true /\
  (- 0x1.e6147ae147ae1p+7 <? -241) = true /\
  (0x1p+79 <? 0x1p+80) = true /\
  forall libm_exp : float -> float, Libm.exp_conforms libm_exp ->
    Binary64.calculate_vpd libm_exp 0x1.e000000000001p+3 15 = Ret 0 /\
    Binary64.calculate_vpd libm_exp (-240) (-241) = Ret 0 /\
    Binary64.calculate_vpd libm_exp 0x1p+80 0x1p+79 = Ret 0.
Proof.
  repeat (split; [reflexivity|]).
  intros libm_exp Hl. split; [|split].
  - apply (calculate_vpd_at_15 libm_exp Hl).
  - apply (calculate_vpd_near_pole libm_exp Hl).
  - apply (calculate_vpd_at_large libm_exp Hl).
Qed.

(** C8, as stated, fails for the same inputs exchanged: the dew point
    exceeds the temperature, both above -243.04, and the value returned
    is zero, not negative. *)
Lemma calculate_vpd_not_negative :
  (15 <? 0x1.e000000000001p+3) = true /\ (-241 <? -240) = true /\
  (- 0x1.e6147ae147ae1p+7 <? -241) = true /\
  (0x1p+79 <? 0x1p+80) = true /\
  forall libm_exp : float -> float, Libm.exp_conforms libm_exp ->
    Binary64.calculate_vpd libm_exp 15 0x1.e000000000001p+3 = Ret 0 /\
    Binary64.calculate_vpd libm_exp (-241) (-240) = Ret 0 /\
    Binary64.calculate_vpd libm_exp 0x1p+79 0x1p+80 = Ret 0.
Proof.
  repeat (split; [reflexivity|]).
  intros libm_exp Hl. split; [|split].
  - apply (calculate_vpd_at_15 libm_exp Hl).
  - apply (calculate_vpd_near_pole libm_exp Hl).
  - apply (calculate_vpd_at_large libm_exp Hl).
Qed.

(** C4, amended.  The inputs are not validated, and two edge cases are
    explicit errors.  A denominator that compares equal to zero raises
    [ZeroDivisionError]: [243.04 + temperature_c] at once, and
    [243.04 + dew_point_c] once [e_s] has been computed; so it is at
    temperature -243.04 and at dew point -243.04.  A Magnus
    exponent beyond the range of [math.exp] raises [OverflowError], as
    at temperature -249.  Other extreme inputs do propagate as
    non-finite values: at (1e308, 1e308) the call returns NaN.  For
    finite inputs in [-100, 100] the call returns a finite value. *)
Theorem calculate_vpd_outcome_binary64 (libm_exp : float -> float) :
  Libm.exp_conforms libm_exp ->
  (forall t d : float,
     (0x1.e6147ae147ae1p+7 + t =? 0) = true ->
     Binary64.calculate_vpd libm_exp t d = Raise ZeroDivisionError) /\
  (forall t d E_s : float,
     (0x1.e6147ae147ae1p+7 + t =? 0) = false ->
     Binary64.math_exp libm_exp ((17.625 * t) / (0x1.e6147ae147ae1p+7 + t))
       = Ret E_s ->
     (0x1.e6147ae147ae1p+7 + d =? 0) = true ->
     Binary64.calculate_vpd libm_exp t d = Raise ZeroDivisionError) /\
  Binary64.calculate_vpd libm_exp (- 0x1.e6147ae147ae1p+7) 20
    = Raise ZeroDivisionError /\
  Binary64.calculate_vpd libm_exp 20 (- 0x1.e6147ae147ae1p+7)
    = Raise ZeroDivisionError /\
  Binary64.calculate_vpd libm_exp (-249) 20 = Raise OverflowError /\
  Binary64.calculate_vpd libm_exp
    0x1.1ccf385ebc8ap+1023 0x1.1ccf385ebc8ap+1023 = Ret nan /\
  (forall t d : float,
     is_finite t = true -> (-100 <= B2R t <= 100)%R ->
     is_finite d = true -> (-100 <= B2R d <= 100)%R ->
     exists v : float,
       Binary64.calculate_vpd libm_exp t d = Ret v /\ is_finite v = true).
Proof.
  intros Hl. split; [|split; [|split; [|split; [|split; [|split]]]]].
  - intros t d. apply calculate_vpd_zero_denominator.
  - intros t d E_s. apply calculate_vpd_zero_denominator_dew.
  - apply calculate_vpd_zero_denominator. reflexivity.
  - apply (calculate_vpd_zero_denominator_dew libm_exp 20 _ _ eq_refl
             (math_exp_accurate libm_exp Hl _
                (proj1 exponent_20) (proj2 exponent_20))).
    reflexivity.
  - rewrite (calculate_vpd_eq libm_exp (-249) 20 _ _
               eq_refl eq_refl eq_refl eq_refl).
    rewrite (math_exp_overflow libm_exp Hl _
               (proj1 exponent_minus_249) (proj2 exponent_minus_249)).
    reflexivity.
  - rewrite (calculate_vpd_eq libm_exp
               0x1.1ccf385ebc8ap+1023 0x1.1ccf385ebc8ap+1023 infinity infinity
               eq_refl eq_refl eq_refl eq_refl).
    rewrite (math_exp_infinity libm_exp Hl). reflexivity.
  - intros t d Ft Ht Fd Hd.
    destruct (calculate_vpd_real libm_exp t d Hl Ft Ht Fd Hd)
      as (es & ea & _ & _ & Hv & Fv & _).
    exists (es - ea). split; assumption.
Qed.

End Vpd_edge_cases_binary64.

(** ** The statements at concrete inputs

    Each statement above that has hypotheses, at inputs that meet
    them, with [reference_exp] for the exponential. *)

Section Witnesses.
Local Open Scope R_scope.

Lemma calculate_vpd_positive_binary64_witness :
  Libm.exp_conforms reference_exp /\
  is_finite 25%float = true /\ is_finite 20%float = true /\
  -100 <= B2R 20%float /\ B2R 20%float + 1 / 10 ^ 9 <= B2R 25%float /\
  B2R 25%float <= 100 /\
  exists v : float,
    Binary64.calculate_vpd reference_exp 25 20 = Ret v /\
    is_finite v = true /\ 0 < B2R v.
Proof.
  assert (H1 : -100 <= B2R 20%float) by (rewrite (proj2 B2R_20); lra).
  assert (H2 : B2R 20%float + 1 / 10 ^ 9 <= B2R 25%float)
    by (rewrite (proj2 B2R_20), (proj2 B2R_25); lra).
  assert (H3 : B2R 25%float <= 100) by (rewrite (proj2 B2R_25); lra).
  split; [exact reference_exp_conforms|].
  split; [exact (proj1 B2R_25)|]. split; [exact (proj1 B2R_20)|].
  split; [exact H1|]. split; [exact H2|]. split; [exact H3|].
  exact (calculate_vpd_positive_binary64 reference_exp 25 20
           reference_exp_conforms (proj1 B2R_25) (proj1 B2R_20) H1 H2 H3).
Defined.

Lemma calculate_vpd_negative_binary64_witness :
  Libm.exp_conforms reference_exp /\
  is_finite 20%float = true /\ is_finite 25%float = true /\
  -100 <= B2R 20%float /\ B2R 20%float + 1 / 10 ^ 9 <= B2R 25%float /\
  B2R 25%float <= 100 /\
  exists v : float,
    Binary64.calculate_vpd reference_exp 20 25 = Ret v /\
    is_finite v = true /\ B2R v < 0.
Proof.
  assert (H1 : -100 <= B2R 20%float) by (rewrite (proj2 B2R_20); lra).
  assert (H2 : B2R 20%float + 1 / 10 ^ 9 <= B2R 25%float)
    by (rewrite (proj2 B2R_20), (proj2 B2R_25); lra).
  assert (H3 : B2R 25%float <= 100) by (rewrite (proj2 B2R_25); lra).
  split; [exact reference_exp_conforms|].
  split; [exact (proj1 B2R_20)|]. split; [exact (proj1 B2R_25)|].
  split; [exact H1|]. split; [exact H2|]. split; [exact H3|].
  exact (calculate_vpd_negative_binary64 reference_exp 20 25
           reference_exp_conforms (proj1 B2R_20) (proj1 B2R_25) H1 H2 H3).
Defined.

Lemma calculate_vpd_monotone_binary64_witness :
  Libm.exp_conforms reference_exp /\
  is_finite 20%float = true /\ is_finite 25%float = true /\
  is_finite 10%float = true /\
  -100 <= B2R 20%float /\ B2R 20%float + 1 / 1000 <= B2R 25%float /\
  B2R 25%float <= 100 /\ -100 <= B2R 10%float <= 100 /\
  (exists v1 v2 : float,
     Binary64.calculate_vpd reference_exp 20 10 = Ret v1 /\
     Binary64.calculate_vpd reference_exp 25 10 = Ret v2 /\
     is_finite v1 = true /\ is_finite v2 = true /\ B2R v1 < B2R v2) /\
  (exists w1 w2 : float,
     Binary64.calculate_vpd reference_exp 10 25 = Ret w1 /\
     Binary64.calculate_vpd reference_exp 10 20 = Ret w2 /\
     is_finite w1 = true /\ is_finite w2 = true /\ B2R w1 < B2R w2).
Proof.
  assert (H1 : -100 <= B2R 20%float) by (rewrite (proj2 B2R_20); lra).
  assert (H2 : B2R 20%float + 1 / 1000 <= B2R 25%float)
    by (rewrite (proj2 B2R_20), (proj2 B2R_25); lra).
  assert (H3 : B2R 25%float <= 100) by (rewrite (proj2 B2R_25); lra).
  assert (H4 : -100 <= B2R 10%float <= 100) by (rewrite (proj2 B2R_10); lra).
  split; [exact reference_exp_conforms|].
  split; [exact (proj1 B2R_20)|]. split; [exact (proj1 B2R_25)|].
  split; [exact (proj1 B2R_10)|].
  split; [exact H1|]. split; [exact H2|]. split; [exact H3|].
  split; [exact H4|].
  exact (calculate_vpd_monotone_binary64 reference_exp 20 25 10
           reference_exp_conforms (proj1 B2R_20) (proj1 B2R_25) (proj1 B2R_10)
           H1 H2 H3 H4).
Defined.

Lemma calculate_vpd_outcome_binary64_witness :
  Libm.exp_conforms reference_exp /\
  Binary64.calculate_vpd reference_exp (- 0x1.e6147ae147ae1p+7) 20
    = Raise ZeroDivisionError /\
  Binary64.calculate_vpd reference_exp 20 (- 0x1.e6147ae147ae1p+7)
    = Raise ZeroDivisionError /\
  Binary64.calculate_vpd reference_exp (-249) 20 = Raise OverflowError /\
  Binary64.calculate_vpd reference_exp
    0x1.1ccf385ebc8ap+1023 0x1.1ccf385ebc8ap+1023 = Ret nan.
Proof.
  split; [exact reference_exp_conforms|].
  pose proof (calculate_vpd_outcome_binary64 reference_exp
                reference_exp_conforms) as (_ & _ & H1 & H2 & H3 & H4 & _).
  split; [exact H1 | split; [exact H2 | split; [exact H3 | exact H4]]].
Defined.

Lemma calculate_vpd_diagonal_binary64_witness :
  Libm.exp_conforms reference_exp /\
  is_finite 25%float = true /\ -100 <= B2R 25%float <= 100 /\
  Binary64.calculate_vpd reference_exp 25 25 = Ret 0%float.
Proof.
  assert (H : -100 <= B2R 25%float <= 100) by (rewrite (proj2 B2R_25); lra).
  split; [exact reference_exp_conforms|].
  split; [exact (proj1 B2R_25)|]. split; [exact H|].
  exact (proj2 (calculate_vpd_diagonal_binary64 reference_exp 25)
           reference_exp_conforms (proj1 B2R_25) H).
Defined.

Lemma calculate_vpd_antisymmetric_binary64_witness :
  Libm.exp_conforms reference_exp /\
  is_finite 25%float = true /\ -100 <= B2R 25%float <= 100 /\
  is_finite 20%float = true /\ -100 <= B2R 20%float <= 100 /\
  exists v w : float,
    Binary64.calculate_vpd reference_exp 25 20 = Ret v /\
    Binary64.calculate_vpd reference_exp 20 25 = Ret w /\
    (v =? - w)%float = true.
Proof.
  assert (H25 : -100 <= B2R 25%float <= 100) by (rewrite (proj2 B2R_25); lra).
  assert (H20 : -100 <= B2R 20%float <= 100) by (rewrite (proj2 B2R_20); lra).
  split; [exact reference_exp_conforms|].
  split; [exact (proj1 B2R_25)|]. split; [exact H25|].
  split; [exact (proj1 B2R_20)|]. split; [exact H20|].
  exact (proj2 (calculate_vpd_antisymmetric_binary64 reference_exp 25 20)
           reference_exp_conforms (proj1 B2R_25) H25 (proj1 B2R_20) H20).
Defined.

Lemma small_le_huge (x : R) : 0 <= x <= 500 -> Rabs x <= 5 * 10 ^ 306.
Proof.
  intros Hx. rewrite Rabs_pos_eq by lra.
  assert (100 <= 10 ^ 306)
    by (apply Rle_trans with (10 ^ 2); [lra | apply Rle_pow; [lra | lia]]).
  lra.
Qed.

Lemma small_le_huge' (x : R) : 0 <= x <= 500 -> Rabs x <= 10 ^ 307.
Proof.
  intros Hx. rewrite Rabs_pos_eq by lra.
  assert (500 <= 10 ^ 307)
    by (apply Rle_trans with (10 ^ 3); [lra | apply Rle_pow; [lra | lia]]).
  lra.
Qed.

Lemma fahrenheit_to_celsius_round_trip_binary64_witness :
  is_finite 37%float = true /\ Rabs (B2R 37%float) <= 5 * 10 ^ 306 /\
  exists r : float,
    Binary64.fahrenheit_to_celsius (Binary64.celsius_to_fahrenheit 37) = Ret r /\
    is_finite r = true /\
    Rabs (B2R r - B2R 37%float) <= (8 * Rabs (B2R 37%float) + 20) / 10 ^ 15.
Proof.
  assert (H : Rabs (B2R 37%float) <= 5 * 10 ^ 306)
    by (apply small_le_huge; rewrite (proj2 B2R_37); lra).
  split; [exact (proj1 B2R_37)|]. split; [exact H|].
  exact (fahrenheit_to_celsius_round_trip_binary64 37 (proj1 B2R_37) H).
Defined.

Lemma fahrenheit_to_celsius_accurate_witness :
  is_finite 212%float = true /\ Rabs (B2R 212%float) <= 10 ^ 307 /\
  exists c : float,
    Binary64.fahrenheit_to_celsius 212 = Ret c /\
    is_finite c = true /\
    Rabs (B2R c - (B2R 212%float - 32) * 5 / 9)
      <= 2 / 10 ^ 15 * Rabs (B2R 212%float - 32) + 3 / 10 ^ 300.
Proof.
  assert (H : Rabs (B2R 212%float) <= 10 ^ 307)
    by (apply small_le_huge'; rewrite (proj2 B2R_212); lra).
  split; [exact (proj1 B2R_212)|]. split; [exact H|].
  exact (fahrenheit_to_celsius_accurate 212 (proj1 B2R_212) H).
Defined.

Lemma calculate_vpd_bounded_binary64_witness :
  Libm.exp_conforms reference_exp /\
  is_finite 25%float = true /\ -100 <= B2R 25%float <= 100 /\
  is_finite 20%float = true /\ -100 <= B2R 20%float <= 100 /\
  exists v : float,
    Binary64.calculate_vpd reference_exp 25 20 = Ret v /\
    is_finite v = true /\
    Rabs (B2R v) <= 5002.
Proof.
  assert (H25 : -100 <= B2R 25%float <= 100) by (rewrite (proj2 B2R_25); lra).
  assert (H20 : -100 <= B2R 20%float <= 100) by (rewrite (proj2 B2R_20); lra).
  split; [exact reference_exp_conforms|].
  split; [exact (proj1 B2R_25)|]. split; [exact H25|].
  split; [exact (proj1 B2R_20)|]. split; [exact H20|].
  exact (calculate_vpd_bounded_binary64 reference_exp 25 20
           reference_exp_conforms (proj1 B2R_25) H25 (proj1 B2R_20) H20).
Defined.

End Witnesses.

(** ** Vapour pressure deficit: edge cases *)

Section Vpd_edge_cases.

Local Open Scope R_scope.

(** C4, as stated, fails: at [temperature_c = -243.04] the denominator
    [243.04 + temperature_c] is zero and the call raises
    [ZeroDivisionError]; no value, finite or not, is returned. *)
Lemma calculate_vpd_zero_denominator_raises :
  Exact.calculate_vpd (-243.04) 20 = Raise ZeroDivisionError /\
  ~ (exists v, Exact.calculate_vpd (-243.04) 20 = Ret v).
Proof.
  assert (H : Exact.calculate_vpd (-243.04) 20 = Raise ZeroDivisionError)
    by (apply calculate_vpd_raises_temperature; lra).
  split; [exact H|].
  intros [v Hv]. rewrite H in Hv. discriminate Hv.
Qed.

(** C6, as stated, fails on both counts, because the Magnus exponent has
    a pole at -243.04.  With the dew point -300 below both temperatures,
    the deficit at -250 is not below the deficit at 0; and at temperature
    0 the deficit at dew point -250 is not above the deficit at dew
    point 0. *)
Lemma calculate_vpd_not_monotone_across_pole :
  (-300 < -250 /\ -250 < 0 /\
   ~ Exact.lt_result (Exact.calculate_vpd (-250) (-300))
                     (Exact.calculate_vpd 0 (-300))) /\
  (-250 < 0 /\
   ~ Exact.lt_result (Exact.calculate_vpd 0 0)
                     (Exact.calculate_vpd 0 (-250))).
Proof.
  assert (Hpole : Exact.magnus 0 < Exact.magnus (-250))
    by (apply magnus_below_pole; lra).
  split.
  - split; [lra | split; [lra|]].
    intros (v1 & v2 & H1 & H2 & Hlt).
    rewrite calculate_vpd_returns in H1 by lra.
    rewrite calculate_vpd_returns in H2 by lra.
    injection H1 as <-. injection H2 as <-.
    unfold Exact.vpd_spec in Hlt. lra.
  - split; [lra|].
    intros (v1 & v2 & H1 & H2 & Hlt).
    rewrite calculate_vpd_returns in H1 by lra.
    rewrite calculate_vpd_returns in H2 by lra.
    injection H1 as <-. injection H2 as <-.
    unfold Exact.vpd_spec in Hlt. lra.
Qed.

End Vpd_edge_cases.

(** ** Fahrenheit to Celsius *)

Section Conversion.

Local Open Scope R_scope.


End Conversion.

(** ** The deficit at 25 degrees with dew point 20 *)

Section Vpd_scenario.

Import ExpBound.
Local Open Scope R_scope.

(** [exp (17.625 * 25 / (243.04 + 25))], the exponent being
    [440625 / 268040]. *)
Lemma exp_at_25 :
  5.17519 <= exp (17.625 * 25 / (243.04 + 25)) <= 5.17520.
Proof.
  replace (17.625 * 25 / (243.04 + 25)) with (IZR 440625 / IZR 268040)
    by lra.
  split.
  - eapply Rle_trans; [|apply (exp_lower_sound 440625 268040 24); lia].
    replace 5.17519 with (IZR 517519 / IZR 100000) by lra.
    apply fixed_ge; [lia | vm_compute; discriminate].
  - eapply Rle_trans; [apply (exp_upper_sound 440625 268040 24); lia|].
    replace 5.17520 with (IZR 517520 / IZR 100000) by lra.
    apply fixed_le; [lia | vm_compute; discriminate].
Qed.

(** [exp (17.625 * 20 / (243.04 + 20))], the exponent being
    [352500 / 263040]. *)
Lemma exp_at_20 :
  3.81942 <= exp (17.625 * 20 / (243.04 + 20)) <= 3.81943.
Proof.
  replace (17.625 * 20 / (243.04 + 20)) with (IZR 352500 / IZR 263040)
    by lra.
  split.
  - eapply Rle_trans; [|apply (exp_lower_sound 352500 263040 24); lia].
    replace 3.81942 with (IZR 381942 / IZR 100000) by lra.
    apply fixed_ge; [lia | vm_compute; discriminate].
  - eapply Rle_trans; [apply (exp_upper_sound 352500 263040 24); lia|].
    replace 3.81943 with (IZR 381943 / IZR 100000) by lra.
    apply fixed_le; [lia | vm_compute; discriminate].
Qed.

Lemma vpd_spec_25_20 : 8.2828 < Exact.vpd_spec 25 20 < 8.2831.
Proof.
  unfold Exact.vpd_spec, Exact.magnus.
  pose proof exp_at_25 as [L25 U25]. pose proof exp_at_20 as [L20 U20].
  split; lra.
Qed.

(** C3, as stated, fails: [calculate_vpd 25 20] returns a value that is
    not within 1 hPa of 0.88 hPa, let alone approximately equal to it. *)
Lemma calculate_vpd_25_20_not_088 :
  ~ (exists v, Exact.calculate_vpd 25 20 = Ret v /\ Exact.approx 1 v 0.88).
Proof.
  intros (v & Hv & Happ).
  rewrite calculate_vpd_returns in Hv by lra. injection Hv as <-.
  pose proof vpd_spec_25_20 as [Hlo _].
  unfold Exact.approx, Rabs in Happ.
  destruct (Rcase_abs (Exact.vpd_spec 25 20 - 0.88)); lra.
Qed.

(** C3, amended.  [calculate_vpd 25 20] returns a value between 8.2828
    and 8.2831 hPa, that is 8.28 hPa to two decimals. *)
Theorem calculate_vpd_25_20 :
  exists v,
    Exact.calculate_vpd 25 20 = Ret v /\
    8.2828 < v < 8.2831 /\
    Exact.approx 0.005 v 8.28.
Proof.
  exists (Exact.vpd_spec 25 20).
  pose proof vpd_spec_25_20 as [Hlo Hhi].
  split; [apply calculate_vpd_returns; lra|].
  split; [split; assumption|].
  unfold Exact.approx. apply Rabs_le. lra.
Qed.

(** Where the exact model and binary64 part ways.  Just below the pole
    the Magnus exponent is large: at -249 the exponential is beyond
    [2 ^ 1024], hence beyond every finite binary64 value, and CPython's
    [math.exp] raises [OverflowError] there.  [Exact.math_exp] has no
    range and returns the real number. *)
Remark exp_at_minus_249_beyond_binary64 :
  2 ^ 1024 < Exact.math_exp (17.625 * -249 / (243.04 + -249)).
Proof.
  unfold Exact.math_exp.
  replace (17.625 * -249 / (243.04 + -249)) with (IZR 4388625 / IZR 5960)
    by lra.
  eapply Rlt_le_trans; [|apply (exp_lower_sound 4388625 5960 24); lia].
  apply Rlt_le_trans with (IZR (2 ^ 1025) / IZR 1).
  - rewrite <- (pow2_IZR 1024). unfold Rdiv.
    rewrite Rinv_1, Rmult_1_r. apply IZR_lt.
    apply Z.pow_lt_mono_r; lia.
  - apply fixed_ge; [lia | vm_compute; discriminate].
Qed.

(** X13.  On binary64, with a conforming [exp], [calculate_vpd 25 20]
    returns a finite value between 8.2827 and 8.2832 hPa. *)
Theorem calculate_vpd_25_20_binary64 (libm_exp : float -> float) :
  Libm.exp_conforms libm_exp ->
  exists v : float,
    Binary64.calculate_vpd libm_exp 25 20 = Ret v /\
    is_finite v = true /\
    8.2827 < B2R v < 8.2832.
Proof.
  intros Hl. destruct B2R_25 as [F25 V25]. destruct B2R_20 as [F20 V20].
  destruct (calculate_vpd_refines_exact libm_exp 25 20 Hl
              F25 ltac:(rewrite V25; lra) F20 ltac:(rewrite V20; lra))
    as (v & Hv & Fv & _ & Ev).
  exists v. split; [exact Hv|]. split; [exact Fv|].
  rewrite V25, V20 in Ev. pose proof vpd_spec_25_20 as [L U].
  assert (E7 : 10 ^ 7 = 10000000) by lra. rewrite E7 in Ev.
  apply Rabs_le_inv in Ev. lra.
Qed.

Lemma calculate_vpd_25_20_binary64_witness :
  Libm.exp_conforms reference_exp /\
  exists v : float,
    Binary64.calculate_vpd reference_exp 25 20 = Ret v /\
    is_finite v = true /\
    8.2827 < B2R v < 8.2832.
Proof.
  split; [exact reference_exp_conforms|].
  exact (calculate_vpd_25_20_binary64 reference_exp reference_exp_conforms).
Defined.

End Vpd_scenario.

(** ** The conversion on concrete binary64 values *)

Section Conversion_binary64.

Local Open Scope float_scope.

(** The question put to the agent in the notebook: 973.2 degrees
    Fahrenheit (the float [0x1.e69999999999ap+9]) is converted to
    522.88888888888891. *)
Remark fahrenheit_to_celsius_973_2 :
  Binary64.fahrenheit_to_celsius 0x1.e69999999999ap+9
    = Ret 0x1.0571c71c71c72p+9.
Proof. vm_compute. reflexivity. Qed.

(** On binary64 the round trip through [c * 9 / 5 + 32] is exact at 100
    and only approximate at 0.1 (the float [0x1.999999999999ap-4]), where
    it is off by less than [2 ^ -50]. *)
Remark round_trip_binary64 :
  Binary64.fahrenheit_to_celsius (100 * 9 / 5 + 32) = Ret 100 /\
  exists c',
    Binary64.fahrenheit_to_celsius (0x1.999999999999ap-4 * 9 / 5 + 32)
      = Ret c' /\
    (c' =? 0x1.999999999999ap-4) = false /\
    (abs (c' - 0x1.999999999999ap-4) <? 0x1p-50) = true.
Proof.
  split; [vm_compute; reflexivity|].
  eexists. split; [vm_compute; reflexivity|].
  split; vm_compute; reflexivity.
Qed.

(** The range of binary64 shows at the far end: at the largest finite
    float the product by [5.0] overflows and the call returns
    [infinity], without raising. *)
Remark fahrenheit_to_celsius_overflow :
  Binary64.fahrenheit_to_celsius 0x1.fffffffffffffp+1023 = Ret infinity.
Proof. vm_compute. reflexivity. Qed.

(** X14.  -40 is where the two scales meet: on binary64
    [fahrenheit_to_celsius (-40)] returns [-40] exactly. *)
Theorem fahrenheit_to_celsius_minus_40 :
  Binary64.fahrenheit_to_celsius (-40) = Ret (-40).
Proof. vm_compute. reflexivity. Qed.

End Conversion_binary64.

(** ** The names of the tools are unambiguous *)

Section Tool_names.

Import Notebook.
Local Open Scope string_scope.

(** Two names that agree up to and including their first dot. *)
Lemma split_at_first_dot (x y r r' : string) :
  has_dot x = false -> has_dot y = false ->
  x ++ "." ++ r = y ++ "." ++ r' -> x = y /\ r = r'.
Proof.
  revert y. induction x as [|a x IH]; intros [|b y] Hx Hy Heq;
    cbn in Hx, Hy, Heq.
  - injection Heq as ->. now split.
  - injection Heq as <- _. cbn in Hy. discriminate Hy.
  - injection Heq as -> _. cbn in Hx. discriminate Hx.
  - injection Heq as -> Heq.
    destruct (Ascii.eqb b ".") eqn:E; [discriminate Hx|].
    destruct (IH y Hx Hy Heq) as [-> ->]. now split.
Qed.

(** X10.  As long as no dot occurs in the catalog and schema names, a tool
    name determines its three parts: equal tool names come from equal
    catalogs, equal schemas and equal function names. *)
Theorem tool_name_unambiguous
  (catalog schema fn catalog' schema' fn' : string) :
  has_dot catalog = false -> has_dot schema = false ->
  has_dot catalog' = false -> has_dot schema' = false ->
  tool_name catalog schema fn = tool_name catalog' schema' fn' ->
  catalog = catalog' /\ schema = schema' /\ fn = fn'.
Proof.
  unfold tool_name. intros Hc Hs Hc' Hs' Heq.
  destruct (split_at_first_dot _ _ _ _ Hc Hc' Heq) as [-> Hrest].
  destruct (split_at_first_dot _ _ _ _ Hs Hs' Hrest) as [-> ->].
  now repeat split.
Qed.

Lemma tool_name_unambiguous_witness :
  has_dot "AICatalog" = false /\ has_dot "AISchema" = false /\
  tool_name "AICatalog" "AISchema" "calculate_vpd"
    = vpd_tool "AICatalog" "AISchema" /\
  "AICatalog" = "AICatalog" /\ "AISchema" = "AISchema" /\
  "calculate_vpd" = "calculate_vpd".
Proof.
  split; [reflexivity | split; [reflexivity | split; [reflexivity|]]].
  exact (tool_name_unambiguous "AICatalog" "AISchema" "calculate_vpd"
           "AICatalog" "AISchema" "calculate_vpd"
           eq_refl eq_refl eq_refl eq_refl eq_refl).
Defined.

(** Dots are not escaped: with a dot in a catalog or schema name, two
    different catalog and schema pairs give the same tool name. *)
Remark tool_name_collision :
  vpd_tool "a.b" "c" = vpd_tool "a" "b.c".
Proof. reflexivity. Qed.

(** X11.  Whatever the catalog and the schema, the two tools of the notebook
    get different names. *)
Theorem tool_names_distinct (CATALOG SCHEMA : string) :
  vpd_tool CATALOG SCHEMA <> f_to_c_tool CATALOG SCHEMA.
Proof.
  unfold vpd_tool, f_to_c_tool, tool_name. intros Heq.
  induction CATALOG as [|a CATALOG IHc]; cbn in Heq.
  - injection Heq as Heq.
    induction SCHEMA as [|b SCHEMA IHs]; cbn in Heq.
    + discriminate Heq.
    + injection Heq as Heq. exact (IHs Heq).
  - injection Heq as Heq. exact (IHc Heq).
Qed.

End Tool_names.
